(** * bmp-js plot functions (src/bmp-plot.js): a shallow embedding

    The plot functions draw on a BMPJS resource through
    [bmp_resource_set_pixel] and read through [bmp_resource_get_pixel].

    Numbers.  JavaScript numbers are IEEE 754 binary64 values.
    - [bmp_plot_line] and the outliners built on it compute fractional sample
      positions with a square root and a division, so they are embedded over
      Rocq's primitive binary64 floats, operation for operation.
    - [bmp_plot_rect], [bmp_plot_clear], [bmp_plot_resource] and
      [bmp_plot_text] only add, compare and count pixel positions; they are
      embedded over [Z] (on integers below 2^53 the two arithmetics agree).

    Objects.  Resources are JavaScript objects passed by reference, and two
    arguments of one call may be the same object.  The embedding keeps them in
    a store indexed by location. *)

From Stdlib Require Import ZArith Lia List Bool Ascii String Floats Sorted.
From stdpp Require Import base list list_numbers.

Set Default Proof Using "Type".
Local Open Scope Z_scope.

(* ===================================================================== *)
(** * Part I: definitions *)
(* ===================================================================== *)

(** ** Resources and the store *)

Definition rgb : Type := Z * Z * Z.

(** A BMPJS resource as the plot functions see it: its two dimensions and a
    grid of colour triples addressable by [(x, y)]. *)
Record bmp : Type := Resource {
  width : Z;
  height : Z;
  bitmap : Z -> Z -> rgb
}.

(** Locations are indices into the object store: location [l] holds the
    resource [σ !! l]. *)
Abbreviation loc := nat (only parsing).
Abbreviation store := (list bmp) (only parsing).

Definition in_bounds (r : bmp) (x y : Z) : bool :=
  (0 <=? x) && (x <? width r) && (0 <=? y) && (y <? height r).

(** Modelled from the spec: [bmp_resource_get_pixel] is not part of
    src/bmp-plot.js.  The spec (section 6) gives
    [get_pixel(buffer, x, y) -> (r,g,b)], defined only for in-bounds [(x,y)];
    the grid is a total function here, and the reads made by
    [bmp_plot_resource] and [bmp_plot_text] are shown to be in bounds
    ([copy_reads_in_bounds], [glyph_reads_in_bounds]). *)
Definition get_pixel (r : bmp) (x y : Z) : rgb := bitmap r x y.

(** Modelled from the spec: [bmp_resource_set_pixel] is not part of
    src/bmp-plot.js.  The spec (section 6): a no-op if [(x,y)] is out of
    bounds, otherwise overwrites the channel triple. *)
Definition set_pixel (r : bmp) (x y : Z) (c : rgb) : bmp :=
  if in_bounds r x y
  then Resource (width r) (height r)
         (fun x' y' => if (x' =? x) && (y' =? y) then c else bitmap r x' y')
  else r.

(** [resource.width], [resource.height] and the two pixel functions on the
    object at a location.  A JavaScript reference always leads to an object;
    at a location outside the store the readers give 0 and black and the
    writer does nothing. *)
Definition res_width (σ : store) (l : loc) : Z :=
  match σ !! l with Some r => width r | None => 0 end.

Definition res_height (σ : store) (l : loc) : Z :=
  match σ !! l with Some r => height r | None => 0 end.

Definition bmp_resource_get_pixel (σ : store) (l : loc) (x y : Z) : rgb :=
  match σ !! l with Some r => get_pixel r x y | None => (0, 0, 0) end.

Definition bmp_resource_set_pixel
    (σ : store) (l : loc) (x y : Z) (r g b : Z) : store :=
  alter (fun res => set_pixel res x y (r, g, b)) l σ.

(** [structuredClone(resource)]: a new object, equal in value, sharing
    nothing with the original.  The copy is put at the first unused
    location. *)
Definition structuredClone (σ : store) (l : loc) : store * loc :=
  match σ !! l with
  | Some r => (σ ++ [r], length σ)
  | None => (σ, l)
  end.

(** Modelled from the spec: [clamp] is not part of src/bmp-plot.js.  The spec
    (sections 4.1, 4.4, 7): the value is clamped into [[lo, hi]], one outside
    the range being reduced to the nearest bound. *)
Definition clamp (v lo hi : Z) : Z :=
  if v <? lo then lo else if hi <? v then hi else v.

(** [for (let i = lo; i < hi; i++) body]: the body runs for
    [i = lo, lo+1, ..., hi-1] in this order, threading the state.  The bound
    is taken once: in every loop below it is a number, or a dimension of a
    resource, that the body does not change ([set_res_width],
    [set_res_height]). *)
Definition for_range {S : Type} (lo hi : Z) (body : Z -> S -> S) (s : S) : S :=
  fold_left (fun s i => body i s) (seqZ lo (hi - lo)) s.

(** ** bmp_plot_rect (lines 29-46) *)

Definition bmp_plot_rect
    (σ : store) (resource : loc) (x y w h r g b : Z) : store * bool :=
  (for_range y (h + y) (fun y2 σ =>
     for_range x (w + x) (fun x2 σ =>
       if (x2 <? res_width σ resource) && (y2 <? res_height σ resource)
       then bmp_resource_set_pixel σ resource x2 y2 r g b
       else σ) σ) σ,
   true).

(** ** bmp_plot_clear (lines 57-68) *)

Definition bmp_plot_clear
    (σ : store) (resource : loc) (r g b : Z) : store * bool :=
  (for_range 0 (res_height σ resource) (fun y σ =>
     for_range 0 (res_width σ resource) (fun x σ =>
       bmp_resource_set_pixel σ resource x y r g b) σ) σ,
   true).

(** ** bmp_plot_resource (lines 129-166) *)

(** Lines 139-147 for one dimension: clamp, then replace -1 by the child's
    dimension. *)
Definition copy_extent (w dim : Z) : Z :=
  let w := clamp w (-1) dim in
  if w =? -1 then dim else w.

(** Lines 149-163: the copy loop, once [w] and [h] are settled. *)
Definition copy_loop
    (σ : store) (resource_p resource_c : loc) (x y w h : Z) : store :=
  for_range 0 w (fun x1 σ =>
    for_range 0 h (fun y1 σ =>
      if (x1 + x <? res_width σ resource_p) &&
         (y1 + y <? res_height σ resource_p)
      then
        let '(c0, c1, c2) := bmp_resource_get_pixel σ resource_c x1 y1 in
        bmp_resource_set_pixel σ resource_p (x1 + x) (y1 + y) c0 c1 c2
      else σ) σ) σ.

Definition bmp_plot_resource
    (σ : store) (resource_p resource_c : loc) (x y w h : Z) : store * bool :=
  let '(σ, resource_c) := structuredClone σ resource_c in
  let w := copy_extent w (res_width σ resource_c) in
  let h := copy_extent h (res_height σ resource_c) in
  (copy_loop σ resource_p resource_c x y w h, true).

(** ** bmp_plot_text (lines 186-298) *)

(** The six colour arguments [fr fg fb br bg bb]. *)
Record text_colors : Type := TextColors {
  fr : Z; fg : Z; fb : Z;
  br : Z; bg : Z; bb : Z
}.

(** Lines 251-278: what becomes of the atlas colour [pixel_c]; [None] is the
    [continue] that skips the pixel.  The background test reads [bg] twice,
    as the source does. *)
Definition text_pixel (pixel_c : rgb) (k : text_colors) : option rgb :=
  let '(c0, c1, c2) := pixel_c in
  if (c0 =? 255) && (c1 =? 255) && (c2 =? 255) then
    if negb (fr k =? -1) && negb (fg k =? -1) && negb (fb k =? -1)
    then Some (fr k, fg k, fb k)
    else None
  else if (c0 =? 0) && (c1 =? 0) && (c2 =? 0) then
    if negb (br k =? -1) && negb (bg k =? -1) && negb (bg k =? -1)
    then Some (br k, bg k, bb k)
    else None
  else Some pixel_c.

(** Lines 244-290: the body of the two glyph loops at cell position
    [(lx, ly)]. *)
Definition glyph_pixel
    (resource_p resource_c : loc) (k : text_colors)
    (char_x_offset x_offset y_offset : Z) (ly lx : Z) (σ : store) : store :=
  let pixel_c := bmp_resource_get_pixel σ resource_c (lx + char_x_offset) ly in
  match text_pixel pixel_c k with
  | None => σ
  | Some (c0, c1, c2) =>
      if (x_offset + lx <? res_width σ resource_p) &&
         (y_offset + ly <? res_height σ resource_p)
      then bmp_resource_set_pixel σ resource_p
             (x_offset + lx) (y_offset + ly) c0 c1 c2
      else σ
  end.

(** Lines 242-292: one glyph cell ([x_start = y_start = 0]). *)
Definition plot_glyph
    (resource_p resource_c : loc) (k : text_colors)
    (font_width font_height : Z)
    (char_x_offset x_offset y_offset : Z) (σ : store) : store :=
  for_range 0 font_height (fun ly σ =>
    for_range 0 font_width (fun lx σ =>
      glyph_pixel resource_p resource_c k
        char_x_offset x_offset y_offset ly lx σ) σ) σ.

Definition is_newline (char_code : Z) : bool :=
  (char_code =? 10) || (char_code =? 13).

(** Lines 222 and 233-234: the atlas column of the glyph of [char_code]. *)
Definition glyph_column (font_width font_chars char_code : Z) : Z :=
  if (char_code <? 32) || (126 <? char_code)
  then font_width * (font_chars - 1)
  else (char_code - 32) * font_width.

(** Lines 237-240: the word wrap, applied to the cursor before a glyph is
    drawn. *)
Definition wrap_cursor
    (wrap : bool) (font_width font_height x_offset_start width_p : Z)
    (cursor : Z * Z) : Z * Z :=
  let '(x_offset, y_offset) := cursor in
  if wrap && (width_p <? x_offset + font_width)
  then (x_offset_start, y_offset + font_height)
  else (x_offset, y_offset).

(** Lines 220-295: the loop over the characters, by their codes. *)
Fixpoint text_loop
    (resource_p resource_c : loc) (k : text_colors) (wrap : bool)
    (font_width font_height font_chars x_offset_start : Z)
    (codes : list Z) (x_offset y_offset : Z) (σ : store) : store :=
  match codes with
  | [] => σ
  | char_code :: rest =>
      if is_newline char_code then
        text_loop resource_p resource_c k wrap
          font_width font_height font_chars x_offset_start
          rest x_offset_start (y_offset + font_height) σ
      else
        let char_x_offset := glyph_column font_width font_chars char_code in
        let '(x_offset, y_offset) :=
          wrap_cursor wrap font_width font_height x_offset_start
            (res_width σ resource_p) (x_offset, y_offset) in
        let σ := plot_glyph resource_p resource_c k font_width font_height
                   char_x_offset x_offset y_offset σ in
        text_loop resource_p resource_c k wrap
          font_width font_height font_chars x_offset_start
          rest (x_offset + font_width) y_offset σ
  end.

(** [text.charCodeAt(i)] for every index of [text].  The characters of a
    Rocq string carry the codes 0 to 255; a JavaScript code unit above 255
    takes the path of any code above 126. *)
Definition char_codes (text : string) : list Z :=
  map (fun a => Z.of_nat (nat_of_ascii a)) (list_ascii_of_string text).

(** The whole function.  [font_width = resource_c.width / 96] is a division
    of doubles: it is an integer exactly when 96 divides the atlas width, and
    only then do all pixel positions stay on the integer grid; the embedding
    is undefined ([None]) for other atlas widths.  [font_chars] is then 96
    (for a zero-width atlas the source gets NaN and the embedding 0, a value
    no glyph loop reads since [font_width = 0] leaves them empty). *)
Definition bmp_plot_text
    (σ : store) (resource_p resource_c : loc) (x y : Z)
    (text : string) (wrap : bool) (k : text_colors) : option (store * bool) :=
  if res_width σ resource_c mod 96 =? 0 then
    let font_width := res_width σ resource_c / 96 in
    let font_height := res_height σ resource_c in
    let font_chars := res_width σ resource_c / font_width in
    Some (text_loop resource_p resource_c k wrap
            font_width font_height font_chars x
            (char_codes text) x y σ,
          true)
  else None.

(** The glyphs [bmp_plot_text] draws, as [(char_x_offset, x_offset,
    y_offset)] in drawing order: the cursor arithmetic of [text_loop] without
    the pixel copies ([width_p] is the parent's width). *)
Fixpoint text_glyphs
    (wrap : bool) (font_width font_height font_chars x_offset_start width_p : Z)
    (codes : list Z) (x_offset y_offset : Z) : list (Z * Z * Z) :=
  match codes with
  | [] => []
  | char_code :: rest =>
      if is_newline char_code then
        text_glyphs wrap font_width font_height font_chars x_offset_start
          width_p rest x_offset_start (y_offset + font_height)
      else
        let char_x_offset := glyph_column font_width font_chars char_code in
        let '(x_offset, y_offset) :=
          wrap_cursor wrap font_width font_height x_offset_start
            width_p (x_offset, y_offset) in
        (char_x_offset, x_offset, y_offset) ::
        text_glyphs wrap font_width font_height font_chars x_offset_start
          width_p rest (x_offset + font_width) y_offset
  end.

(** ** bmp_plot_line (lines 84-116), over binary64 *)

(** One call [bmp_resource_set_pixel(resource, x, y, r, g, b)] made by the
    line loop.  The coordinates are fractional doubles; what the pixel
    setter, which is outside src/bmp-plot.js, does with them is not part of
    this embedding, so the line functions return the calls they make, in
    order. *)
Record pixel_call : Type := PixelCall {
  call_x : float; call_y : float;
  call_r : float; call_g : float; call_b : float
}.

(** What [bmp_plot_line] reads of its resource: the two dimensions, as the
    doubles its comparisons see. *)
Record line_target : Type := LineTarget {
  target_width : float;
  target_height : float
}.

(** Modelled from the spec: [clamp] at doubles (see [clamp] above); the
    comparisons are those of binary64, so a NaN is returned as it is. *)
Definition clamp_double (v lo hi : float) : float :=
  if (v <? lo)%float then lo else if (hi <? v)%float then hi else v.

(** The double nearest to the literal [0.1] of line 95. *)
Definition one_tenth : float := 0x1.999999999999ap-4%float.

(** Lines 106-113.  [i], [x] and [y] are the loop's three doubles; [fuel]
    bounds the number of evaluations of the loop test, and [None] means the
    loop was still running when it ran out. *)
Fixpoint line_loop
    (fuel : nat) (resource : line_target) (l ax ay r g b : float)
    (i x y : float) : option (list pixel_call) :=
  match fuel with
  | O => None
  | S fuel =>
      if (i <? l)%float then
        match line_loop fuel resource l ax ay r g b
                (i + 1)%float (x + ax)%float (y + ay)%float with
        | Some calls =>
            Some (if (x <? target_width resource)%float &&
                     (y <? target_height resource)%float
                  then PixelCall x y r g b :: calls
                  else calls)
        | None => None
        end
      else Some []
  end.

(** Line 98: the loop bound [l]. *)
Definition line_length (x1 y1 x2 y2 p : float) : float :=
  let p := clamp_double p one_tenth 2 in
  let x := (x2 - x1)%float in
  let y := (y2 - y1)%float in
  (sqrt (x * x + y * y) * p)%float.

Definition bmp_plot_line
    (fuel : nat) (resource : line_target) (x1 y1 x2 y2 r g b p : float)
    : option (list pixel_call * bool) :=
  let p := clamp_double p one_tenth 2 in
  let x := (x2 - x1)%float in
  let y := (y2 - y1)%float in
  let l := (sqrt (x * x + y * y) * p)%float in
  let ax := (x / l)%float in
  let ay := (y / l)%float in
  match line_loop fuel resource l ax ay r g b 0%float x1 y1 with
  | Some calls => Some (calls, true)
  | None => None
  end.

(** The value of the loop counter [i] after [n] executions of [i++]. *)
Definition counter (n : nat) : float := Nat.iter n (fun i => (i + 1)%float) 0%float.

(** The position of the [k]-th sample: [k] additions of the step [(ax, ay)]
    to the start [(x1, y1)] (lines 111-112). *)
Definition sample (x1 y1 ax ay : float) (k : nat) : float * float :=
  (Nat.iter k (fun x => (x + ax)%float) x1,
   Nat.iter k (fun y => (y + ay)%float) y1).

(** The calls made for a list of sample positions: one for each position
    that passes the test of lines 107-108. *)
Definition sample_calls
    (resource : line_target) (r g b : float) (positions : list (float * float))
    : list pixel_call :=
  flat_map (fun xy =>
    if (fst xy <? target_width resource)%float &&
       (snd xy <? target_height resource)%float
    then [PixelCall (fst xy) (snd xy) r g b]
    else []) positions.

(** ** The outliners (lines 314-613) *)

(** The loop shared by the six outliners: for [i] from 1 below the table's
    length, a line from [points[i-1]] to [points[i]], each mapped by
    [p / 512 * w + x].  The results of the line calls are dropped by the
    source; the embedding keeps their pixel calls and stops when a call runs
    out of fuel. *)
Fixpoint plot_outline
    (fuel : nat) (resource : line_target) (points : list (float * float))
    (x y w h r g b p : float) : option (list pixel_call) :=
  match points with
  | last :: ((curr :: _) as rest) =>
      let lx := (fst last / 512 * w + x)%float in
      let ly := (snd last / 512 * h + y)%float in
      let cx := (fst curr / 512 * w + x)%float in
      let cy := (snd curr / 512 * h + y)%float in
      match bmp_plot_line fuel resource lx ly cx cy r g b p with
      | Some (calls, _) =>
          match plot_outline fuel resource rest x y w h r g b p with
          | Some calls' => Some (calls ++ calls')
          | None => None
          end
      | None => None
      end
  | _ => Some []
  end.

Definition circle_points : list (float * float) :=
  [ (247, 1); (312, 8); (360, 23); (403, 47); (439, 78); (469, 114);
    (490, 153); (507, 205); (511, 257); (505, 312); (490, 360); (466, 403);
    (435, 439); (399, 469); (360, 490); (308, 507); (256, 511); (201, 505);
    (153, 490); (110, 466); (74, 435); (44, 399); (23, 360); (6, 308);
    (2, 256); (8, 201); (23, 153); (47, 110); (78, 74); (114, 44);
    (153, 23); (205, 6); (247, 1) ]%float.

Definition arrow_up_points : list (float * float) :=
  [ (256, 1); (512, 256); (384, 256); (384, 512); (128, 512); (128, 256);
    (1, 256); (256, 1) ]%float.

Definition arrow_down_points : list (float * float) :=
  [ (128, 0); (384, 0); (384, 256); (512, 256); (256, 512); (0, 256);
    (128, 256); (128, 0) ]%float.

Definition arrow_left_points : list (float * float) :=
  [ (0, 256); (256, 0); (256, 128); (512, 128); (512, 384); (256, 384);
    (256, 512); (0, 256) ]%float.

Definition arrow_right_points : list (float * float) :=
  [ (0, 128); (256, 128); (256, 0); (512, 256); (256, 512); (256, 384);
    (0, 384); (0, 128) ]%float.

Definition triangle_points : list (float * float) :=
  [ (256, 0); (512, 512); (0, 512); (256, 0) ]%float.

Definition plot_shape
    (points : list (float * float))
    (fuel : nat) (resource : line_target) (x y w h r g b p : float)
    : option (list pixel_call * bool) :=
  match plot_outline fuel resource points x y w h r g b p with
  | Some calls => Some (calls, true)
  | None => None
  end.

Definition bmp_plot_circle := plot_shape circle_points.
Definition bmp_plot_arrow_up := plot_shape arrow_up_points.
Definition bmp_plot_arrow_down := plot_shape arrow_down_points.
Definition bmp_plot_arrow_left := plot_shape arrow_left_points.
Definition bmp_plot_arrow_right := plot_shape arrow_right_points.
Definition bmp_plot_triangle := plot_shape triangle_points.

(** ** Integers among the doubles *)

Definition bit_length (k : positive) : Z := Zpos (digits2_pos k).
Arguments bit_length : simpl never.

(** The binary64 datum of the positive integer [k < 2^53]: 53 mantissa bits,
    [k] shifted up to fill them. *)
Definition double_of_pos (k : positive) : spec_float :=
  S754_finite false (Pos.shiftl k (Z.to_N (53 - bit_length k))) (bit_length k - 53).

Definition two53 : float := 9007199254740992%float.

(** The values the counter [i] of [line_loop] can take: 0, the integers below
    2^53, and 2^53, where [i++] stops changing it. *)
Definition counter_value (i : float) : Prop :=
  Prim2SF i = S754_zero false \/
  (exists k, Zpos k < 2 ^ 53 /\ Prim2SF i = double_of_pos k) \/
  i = two53.

(** A double that is a zero or NaN. *)
Definition zero_or_nan (f : spec_float) : bool :=
  match f with
  | S754_zero _ | S754_nan => true
  | _ => false
  end.

(** ** Notions used by the statements *)

(** The number of glyphs of a layout whose origin lies on the row [row]. *)
Definition glyphs_in_row (glyphs : list (Z * Z * Z)) (row : Z) : nat :=
  length (List.filter (fun g => snd g =? row) glyphs).

(** The segments an outliner draws: the consecutive pairs of its table. *)
Fixpoint segments (points : list (float * float))
    : list ((float * float) * (float * float)) :=
  match points with
  | last :: ((curr :: _) as rest) => (last, curr) :: segments rest
  | _ => []
  end.

(** A table point mapped into the destination (lines 364-367). *)
Definition map_point (x y w h : float) (pt : float * float) : float * float :=
  ((fst pt / 512 * w + x)%float, (snd pt / 512 * h + y)%float).

(** The glyph pixel rule in the specification's words: a white atlas pixel
    takes the foreground colour if its three channels are non-negative, a
    black one the background colour under the same rule, any other colour is
    kept; [None] skips the pixel. *)
Definition stated_text_pixel (pixel_c : rgb) (k : text_colors) : option rgb :=
  let '(c0, c1, c2) := pixel_c in
  if (c0 =? 255) && (c1 =? 255) && (c2 =? 255) then
    if (0 <=? fr k) && (0 <=? fg k) && (0 <=? fb k)
    then Some (fr k, fg k, fb k) else None
  else if (c0 =? 0) && (c1 =? 0) && (c2 =? 0) then
    if (0 <=? br k) && (0 <=? bg k) && (0 <=? bb k)
    then Some (br k, bg k, bb k) else None
  else Some pixel_c.

(** The copy extent in the specification's words: -1 selects the child's
    dimension, any other request is clamped into [[-1, dim]]. *)
Definition stated_extent (w dim : Z) : Z :=
  if w =? -1 then dim else clamp w (-1) dim.

(** A resource of one colour, for the examples. *)
Definition plain (w h : Z) (c : rgb) : bmp := Resource w h (fun _ _ => c).

(** ** Painted regions *)

(** [painted σ0 σ p V C]: the store [σ] is [σ0] with, in resource [p], every
    in-bounds position of the region [V] holding the colour [C] gives it and
    every other position of [p] as it was; the dimensions of [p] and all other
    resources are unchanged. *)
Record painted
    (σ0 σ : store) (p : loc) (V : Z -> Z -> Prop) (C : Z -> Z -> rgb) : Prop :=
  Painted {
    painted_length : length σ = length σ0;
    painted_others : forall l, l <> p -> σ !! l = σ0 !! l;
    painted_width : res_width σ p = res_width σ0 p;
    painted_height : res_height σ p = res_height σ0 p;
    painted_inside : forall X Y,
      V X Y -> 0 <= X < res_width σ0 p -> 0 <= Y < res_height σ0 p ->
      bmp_resource_get_pixel σ p X Y = C X Y;
    painted_outside : forall X Y,
      ~ (V X Y /\ 0 <= X < res_width σ0 p /\ 0 <= Y < res_height σ0 p) ->
      bmp_resource_get_pixel σ p X Y = bmp_resource_get_pixel σ0 p X Y
  }.

(** ** Notions used by the further properties *)

(** [only_changes σ0 σ p V]: the store [σ] differs from [σ0] at most in
    pixels of resource [p] at positions of the region [V]; all dimensions and
    all other resources are as in [σ0]. *)
Record only_changes
    (σ0 σ : store) (p : loc) (V : Z -> Z -> Prop) : Prop :=
  OnlyChanges {
    changes_length : length σ = length σ0;
    changes_others : forall l, l <> p -> σ !! l = σ0 !! l;
    changes_width : forall l, res_width σ l = res_width σ0 l;
    changes_height : forall l, res_height σ l = res_height σ0 l;
    changes_outside : forall X Y,
      ~ V X Y ->
      bmp_resource_get_pixel σ p X Y = bmp_resource_get_pixel σ0 p X Y
  }.

(** The text layout on a grid: the glyph of the [col]-th character of the
    [line]-th line at [(x + col * font_width, y + line * font_height)]. *)
Fixpoint grid_glyphs
    (font_width font_height font_chars x y : Z)
    (codes : list Z) (line col : Z) : list (Z * Z * Z) :=
  match codes with
  | [] => []
  | char_code :: rest =>
      if is_newline char_code then
        grid_glyphs font_width font_height font_chars x y rest (line + 1) 0
      else
        (glyph_column font_width font_chars char_code,
         x + col * font_width, y + line * font_height) ::
        grid_glyphs font_width font_height font_chars x y rest line (col + 1)
  end.

(** A character code without a glyph of its own: outside 0x20..0x7E and not
    a newline. *)
Definition unprintable (char_code : Z) : bool :=
  negb (is_newline char_code) && ((char_code <? 32) || (126 <? char_code)).

(** Two character codes that are equal or both unprintable. *)
Definition same_glyph (a b : Z) : Prop :=
  a = b \/ (unprintable a = true /\ unprintable b = true).

(** What every pixel-setter call of a line with colour [(r, g, b)] on
    [resource] satisfies: the tests of lines 107-108 and the colour. *)
Definition guarded_call
    (resource : line_target) (r g b : float) (c : pixel_call) : Prop :=
  (call_x c <? target_width resource)%float = true /\
  (call_y c <? target_height resource)%float = true /\
  (call_x c =? call_x c)%float = true /\
  (call_y c =? call_y c)%float = true /\
  call_r c = r /\ call_g c = g /\ call_b c = b.

(* ===================================================================== *)
(** * Part II: properties *)
(* ===================================================================== *)

(** ** Binary64: adding 1 to an integer below 2^53 is exact *)

Section Iterations.
Context {A : Type} (f : A -> A).

Lemma nat_iter_shift n x : Nat.iter n f (f x) = f (Nat.iter n f x).
Proof. induction n; simpl; congruence. Qed.

Lemma nat_iter_plus n m x :
  Nat.iter (n + m) f x = Nat.iter n f (Nat.iter m f x).
Proof. induction n; simpl; congruence. Qed.

Lemma iter_pos_nat p x : SpecFloat.iter_pos f p x = Nat.iter (Pos.to_nat p) f x.
Proof.
  revert x; induction p as [p IH|p IH|]; intros x; simpl SpecFloat.iter_pos.
  - rewrite !IH, Pos2Nat.inj_xI.
    replace (S (2 * Pos.to_nat p)) with (Pos.to_nat p + S (Pos.to_nat p))%nat by lia.
    rewrite nat_iter_plus. simpl. now rewrite nat_iter_shift.
  - rewrite !IH, Pos2Nat.inj_xO.
    replace (2 * Pos.to_nat p)%nat with (Pos.to_nat p + Pos.to_nat p)%nat by lia.
    now rewrite nat_iter_plus.
  - reflexivity.
Qed.

Lemma pos_iter_nat p x : Pos.iter f x p = Nat.iter (Pos.to_nat p) f x.
Proof.
  rewrite Pos2Nat.inj_iter. generalize (Pos.to_nat p) as n.
  induction n; simpl; congruence.
Qed.
End Iterations.

Lemma shiftl_nat k z : Pos.shiftl k (Z.to_N z) = Nat.iter (Z.to_nat z) xO k.
Proof.
  rewrite <- Z_N_nat. destruct (Z.to_N z) as [|p]; [reflexivity|].
  simpl. apply pos_iter_nat.
Qed.

Lemma bit_length_pos k : 1 <= bit_length k.
Proof. unfold bit_length; lia. Qed.

Lemma bit_length_shift k n :
  bit_length (Nat.iter n xO k) = bit_length k + Z.of_nat n.
Proof.
  unfold bit_length. induction n.
  - simpl. lia.
  - rewrite Nat2Z.inj_succ. simpl Nat.iter. simpl digits2_pos. lia.
Qed.

Lemma bit_length_bounds k : 2 ^ (bit_length k - 1) <= Zpos k < 2 ^ bit_length k.
Proof.
  unfold bit_length.
  induction k as [k IH|k IH|]; cbn [digits2_pos]; [| |simpl; lia].
  all: rewrite Pos2Z.inj_succ;
    replace (Z.succ (Zpos (digits2_pos k)) - 1) with (Zpos (digits2_pos k)) by lia;
    rewrite Z.pow_succ_r by lia;
    replace (2 ^ Zpos (digits2_pos k)) with (2 * 2 ^ (Zpos (digits2_pos k) - 1)) in *
      by (rewrite <- Z.pow_succ_r by lia; f_equal; lia);
    lia.
Qed.

Lemma bit_length_le53 k : Zpos k < 2 ^ 53 -> bit_length k <= 53.
Proof.
  intros H. destruct (Z_le_gt_dec (bit_length k) 53) as [|Hgt]; [assumption|exfalso].
  pose proof (bit_length_bounds k) as [Hlo _].
  assert (2 ^ 53 <= 2 ^ (bit_length k - 1)) by (apply Z.pow_le_mono_r; lia).
  lia.
Qed.

Lemma shr_shifted n q :
  Nat.iter n shr_1 (Build_shr_record (Zpos (Nat.iter n xO q)) false false)
  = Build_shr_record (Zpos q) false false.
Proof.
  induction n.
  - reflexivity.
  - change (Nat.iter (S n) shr_1 ?x) with (shr_1 (Nat.iter n shr_1 x)).
    rewrite <- nat_iter_shift. simpl. exact IHn.
Qed.

Lemma shifted_add a b (n : nat) :
  (Nat.iter n xO a + Nat.iter n xO b = Nat.iter n xO (a + b))%positive.
Proof. induction n; simpl; [reflexivity|]. rewrite <- IHn. reflexivity. Qed.

Lemma fexp_normal z : -1021 <= z -> fexp prec emax z = z - 53.
Proof. intros H. unfold fexp, SpecFloat.emin, prec, emax. lia. Qed.

Lemma shr_nat mrs e (n : nat) :
  shr mrs e (Z.of_nat n) = (Nat.iter n shr_1 mrs, e + Z.of_nat n).
Proof.
  destruct n as [|n].
  - simpl. f_equal. lia.
  - unfold shr. rewrite Nat2Z.inj_succ, <- Zpos_P_of_succ_nat.
    rewrite iter_pos_nat, SuccNat2Pos.id_succ. reflexivity.
Qed.

Lemma shr_fexp_exact (n : nat) q e :
  bit_length q = 53 -> -1074 <= e + Z.of_nat n ->
  shr_fexp prec emax (Zpos (Nat.iter n xO q)) e loc_Exact
  = (Build_shr_record (Zpos q) false false, e + Z.of_nat n).
Proof.
  intros Hq He. unfold shr_fexp.
  change (Zdigits2 (Zpos ?m)) with (bit_length m).
  rewrite bit_length_shift, Hq, fexp_normal by lia.
  replace (53 + Z.of_nat n + e - 53 - e) with (Z.of_nat n) by lia.
  cbn [shr_record_of_loc]. rewrite shr_nat, shr_shifted. reflexivity.
Qed.

Lemma binary_round_aux_exact (n : nat) q e :
  bit_length q = 53 -> -1074 <= e + Z.of_nat n <= 971 ->
  binary_round_aux prec emax false (Zpos (Nat.iter n xO q)) e loc_Exact
  = S754_finite false q (e + Z.of_nat n).
Proof.
  intros Hq He. unfold binary_round_aux.
  rewrite shr_fexp_exact by lia.
  cbn [shr_m loc_of_shr_record round_nearest_even].
  rewrite (shr_fexp_exact 0 q) by (simpl; lia).
  cbn [shr_m]. replace (e + Z.of_nat n + Z.of_nat 0) with (e + Z.of_nat n) by lia.
  replace (e + Z.of_nat n <=? emax - prec) with true; [reflexivity|].
  symmetry. apply Z.leb_le. unfold emax, prec. lia.
Qed.

Lemma binary_round_pos (k : positive) :
  bit_length k <= 53 ->
  binary_round prec emax false (Nat.iter 52 xO k) (-52) = double_of_pos k.
Proof.
  intros Hk. pose proof (bit_length_pos k) as H1.
  unfold binary_round.
  change (Zpos (digits2_pos ?m)) with (bit_length m).
  rewrite bit_length_shift, fexp_normal by lia.
  unfold shl_align.
  destruct (bit_length k + Z.of_nat 52 + -52 - 53 - -52) as [|d|d] eqn:E; try lia.
  - replace 52%nat with (0 + 52)%nat by reflexivity.
    rewrite nat_iter_plus.
    replace 52%nat with (Z.to_nat (53 - bit_length k)) by lia.
    rewrite binary_round_aux_exact.
    + unfold double_of_pos. rewrite shiftl_nat. f_equal. lia.
    + rewrite bit_length_shift. lia.
    + lia.
  - replace 52%nat
      with (Z.to_nat (bit_length k - 1) + Z.to_nat (53 - bit_length k))%nat by lia.
    rewrite nat_iter_plus.
    rewrite binary_round_aux_exact.
    + unfold double_of_pos. rewrite shiftl_nat. f_equal. lia.
    + rewrite bit_length_shift. lia.
    + lia.
Qed.

Lemma shl_align_pos k :
  bit_length k <= 53 ->
  fst (shl_align (Pos.shiftl k (Z.to_N (53 - bit_length k))) (bit_length k - 53) (-52))
  = Nat.iter 52 xO k.
Proof.
  intros Hk. unfold shl_align. pose proof (bit_length_pos k).
  destruct (-52 - (bit_length k - 53)) as [|d|d] eqn:E; try lia.
  - cbn [fst]. rewrite shiftl_nat. f_equal. lia.
  - cbn [fst]. rewrite pos_iter_nat, shiftl_nat, <- nat_iter_plus. f_equal. lia.
Qed.

(** Binary64 addition of 1 to the integer [k] gives the integer [k + 1], as
    long as it is below 2^53. *)
Lemma double_succ (k : positive) :
  bit_length (k + 1) <= 53 -> bit_length k <= 53 ->
  SF64add (double_of_pos k) (double_of_pos 1) = double_of_pos (k + 1).
Proof.
  intros Hk1 Hk. pose proof (bit_length_pos k) as Hw.
  unfold SF64add, double_of_pos at 1 2. cbv beta iota zeta delta [SFadd].
  change (IntDef.Z.min ?a ?b) with (Z.min a b).
  change (bit_length 1) with 1 in *.
  replace (Z.min (bit_length k - 53) (1 - 53)) with (-52) by lia.
  rewrite (shl_align_pos k Hk).
  change (1 - 53) with (bit_length 1 - 53).
  change (53 - 1) with (53 - bit_length 1).
  rewrite (shl_align_pos 1) by (change (bit_length 1) with 1; lia).
  cbn [cond_Zopp]. rewrite <- Pos2Z.inj_add, shifted_add.
  cbn [binary_normalize]. apply binary_round_pos. assumption.
Qed.

Lemma Prim2SF_one : Prim2SF 1 = double_of_pos 1.
Proof. reflexivity. Qed.

(** The counter holds exactly the integer [n] after [n] increments. *)
Lemma counter_exact n :
  0 < Z.of_nat n < 2 ^ 53 -> Prim2SF (counter n) = double_of_pos (Pos.of_nat n).
Proof.
  induction n as [|n IH]; intros Hn; [lia|].
  change (counter (S n)) with (counter n + 1)%float.
  rewrite add_spec, Prim2SF_one.
  destruct n as [|n].
  - reflexivity.
  - rewrite IH by lia.
    replace (Pos.of_nat (S (S n))) with (Pos.of_nat (S n) + 1)%positive by lia.
    apply double_succ; apply bit_length_le53; lia.
Qed.

Lemma counter_value_zero : counter_value 0%float.
Proof. left. reflexivity. Qed.

Lemma counter_value_succ i : counter_value i -> counter_value (i + 1)%float.
Proof.
  intros [H|[(k & Hk & H)|H]].
  - right; left. exists 1%positive. split; [reflexivity|].
    rewrite add_spec, H. reflexivity.
  - destruct (Z_lt_ge_dec (Zpos (k + 1)) (2 ^ 53)) as [Hlt|Hge].
    + right; left. exists (k + 1)%positive. split; [assumption|].
      rewrite add_spec, H, Prim2SF_one.
      apply double_succ; apply bit_length_le53; assumption.
    + right; right. apply Prim2SF_inj. rewrite add_spec, H, Prim2SF_one.
      assert (k = 9007199254740991%positive) as -> by lia.
      vm_compute. reflexivity.
  - right; right. subst i. vm_compute. reflexivity.
Qed.

Lemma shifted_value k (n : nat) : Zpos (Nat.iter n xO k) = Zpos k * 2 ^ Z.of_nat n.
Proof.
  induction n as [|n IH].
  - simpl. lia.
  - rewrite Nat2Z.inj_succ, Z.pow_succ_r by lia.
    change (Nat.iter (S n) xO k) with (xO (Nat.iter n xO k)).
    rewrite Pos2Z.inj_xO, IH. lia.
Qed.

(** [double_of_pos k] is mantissa [m] and exponent [e <= 0] with
    [m * 2^e = k]. *)
Lemma double_of_pos_value k :
  bit_length k <= 53 ->
  exists m e,
    double_of_pos k = S754_finite false m e /\ e <= 0 /\
    Zpos m = Zpos k * 2 ^ (- e).
Proof.
  intros Hk. unfold double_of_pos. eexists _, _. split; [reflexivity|].
  split; [lia|]. rewrite shiftl_nat, shifted_value. f_equal. f_equal. lia.
Qed.

(** After [n < 2^53] increments the counter is the double [m * 2^e] with
    [m * 2^e = n]: it holds the integer [n] exactly. *)
Lemma counter_integer n :
  0 < Z.of_nat n < 2 ^ 53 ->
  exists m e,
    Prim2SF (counter n) = S754_finite false m e /\ e <= 0 /\
    Zpos m = Z.of_nat n * 2 ^ (- e).
Proof.
  intros Hn. rewrite counter_exact by exact Hn.
  destruct (double_of_pos_value (Pos.of_nat n)) as (m & e & Hd & He & Hm).
  { apply bit_length_le53. lia. }
  exists m, e. repeat split; try assumption. rewrite Hm. f_equal. lia.
Qed.

(** The counter never becomes NaN or infinite: it stays below +Infinity. *)
Lemma counter_value_lt_infinity i : counter_value i -> (i <? infinity)%float = true.
Proof.
  intros H. rewrite ltb_spec.
  destruct H as [H|[(k & Hk & H)|H]].
  - rewrite H. reflexivity.
  - rewrite H. reflexivity.
  - subst i. reflexivity.
Qed.

(** ** Binary64: comparisons, and arithmetic on zeros and NaN *)

Lemma SFcompare_antisym a b :
  SFcompare b a = option_map CompOpp (SFcompare a b).
Proof.
  destruct a as [sa|sa| |sa ma ea], b as [sb|sb| |sb mb eb]; simpl;
    try reflexivity;
    try (destruct sa; reflexivity);
    try (destruct sb; reflexivity);
    try (destruct sa, sb; reflexivity).
  destruct sa, sb; try reflexivity.
  all: rewrite (Z.compare_antisym ea eb);
    destruct (ea ?= eb)%Z; simpl; try reflexivity;
    rewrite (Pos.compare_cont_antisym ma mb Eq); simpl;
    destruct (Pos.compare_cont Eq ma mb); reflexivity.
Qed.

Lemma SFltb_false_leb a b :
  SFcompare a b <> None -> SFltb a b = false -> SFleb b a = true.
Proof.
  unfold SFltb, SFleb. rewrite (SFcompare_antisym a b).
  destruct (SFcompare a b) as [[]|]; simpl; congruence.
Qed.

Lemma SFleb_ltb_false a b : SFleb a b = true -> SFltb b a = false.
Proof.
  unfold SFltb, SFleb. rewrite (SFcompare_antisym a b).
  destruct (SFcompare a b) as [[]|]; simpl; congruence.
Qed.

Lemma SFcompare_defined a b :
  SFeqb a a = true -> SFeqb b b = true -> SFcompare a b <> None.
Proof.
  destruct a as [sa|sa| |sa ma ea], b as [sb|sb| |sb mb eb];
    unfold SFeqb; simpl; congruence.
Qed.

Lemma SFsub_equal a b :
  SFeqb a b = true -> zero_or_nan (SFsub prec emax b a) = true.
Proof.
  unfold SFeqb.
  destruct a as [sa|sa| |sa ma ea], b as [sb|sb| |sb mb eb]; simpl;
    try discriminate; try reflexivity;
    try solve [ intros; try destruct sa; try destruct sb; simpl in *;
                (discriminate || reflexivity) ].
  intros H.
  assert (sa = sb /\ ea = eb /\ ma = mb) as (-> & -> & ->).
  { destruct sa, sb; try discriminate.
    all: destruct (ea ?= eb)%Z eqn:E; try discriminate;
      apply Z.compare_eq in E;
      destruct (PosDef.Pos.compare_cont Eq ma mb) eqn:E'; try discriminate;
      apply Pos.compare_eq in E'; auto. }
  change (IntDef.Z.min eb eb) with (Z.min eb eb).
  rewrite Z.min_id. unfold shl_align.
  change (IntDef.Z.sub eb eb) with (eb - eb). rewrite Z.sub_diag.
  cbn [fst]. destruct sb; simpl; reflexivity.
Qed.

Lemma SFmul_zero_or_nan a b :
  zero_or_nan a = true -> zero_or_nan (SFmul prec emax a b) = true.
Proof. destruct a, b; simpl; congruence. Qed.

Lemma SFadd_zero_or_nan a b :
  zero_or_nan a = true -> zero_or_nan b = true ->
  zero_or_nan (SFadd prec emax a b) = true.
Proof.
  destruct a as [sa|sa| |sa ma ea], b as [sb|sb| |sb mb eb]; simpl; try congruence.
  destruct sa, sb; reflexivity.
Qed.

Lemma SFsqrt_zero_or_nan a :
  zero_or_nan a = true -> zero_or_nan (SFsqrt prec emax a) = true.
Proof. destruct a; simpl; congruence. Qed.

Lemma SFltb_zero_or_nan a :
  zero_or_nan a = true -> SFltb (S754_zero false) a = false.
Proof. destruct a; unfold SFltb; simpl; congruence. Qed.

(** For a zero-length segment the loop bound is a zero or NaN, whatever the
    clamped precision is. *)
Lemma line_length_degenerate x1 y1 x2 y2 p :
  (x1 =? x2)%float = true -> (y1 =? y2)%float = true ->
  zero_or_nan (Prim2SF (line_length x1 y1 x2 y2 p)) = true.
Proof.
  rewrite !FloatAxioms.eqb_spec. intros Hx Hy. unfold line_length.
  rewrite mul_spec. apply SFmul_zero_or_nan.
  rewrite sqrt_spec. apply SFsqrt_zero_or_nan.
  rewrite add_spec. apply SFadd_zero_or_nan.
  - rewrite mul_spec. apply SFmul_zero_or_nan. rewrite sub_spec.
    apply SFsub_equal, Hx.
  - rewrite mul_spec. apply SFmul_zero_or_nan. rewrite sub_spec.
    apply SFsub_equal, Hy.
Qed.

(** ** The line loop *)

Lemma bmp_plot_line_unfold fuel resource x1 y1 x2 y2 r g b p :
  bmp_plot_line fuel resource x1 y1 x2 y2 r g b p =
  let l := line_length x1 y1 x2 y2 p in
  match line_loop fuel resource l ((x2 - x1) / l)%float ((y2 - y1) / l)%float
          r g b 0%float x1 y1 with
  | Some calls => Some (calls, true)
  | None => None
  end.
Proof. reflexivity. Qed.

(** Whatever the loop does, the only value [bmp_plot_line] returns is
    [true]. *)
Lemma bmp_plot_line_result fuel resource x1 y1 x2 y2 r g b p :
  bmp_plot_line fuel resource x1 y1 x2 y2 r g b p = None \/
  exists calls, bmp_plot_line fuel resource x1 y1 x2 y2 r g b p = Some (calls, true).
Proof.
  rewrite bmp_plot_line_unfold. cbv zeta.
  destruct (line_loop _ _ _ _ _ _ _ _ _ _ _); eauto.
Qed.

Lemma iter_incr_shift k i :
  Nat.iter (S k) (fun i => (i + 1)%float) i
  = Nat.iter k (fun i => (i + 1)%float) (i + 1)%float.
Proof. symmetry. exact (nat_iter_shift (fun i => (i + 1)%float) k i). Qed.

(** The loop ends as soon as the counter is not below [l]: one more unit of
    fuel than increments is enough. *)
Lemma line_loop_terminates resource l ax ay r g b n :
  forall i x y,
    (Nat.iter n (fun i => i + 1) i <? l)%float = false ->
    exists calls,
      line_loop (S n) resource l ax ay r g b i x y = Some calls.
Proof.
  induction n as [|n IH]; intros i x y Hn.
  - simpl in Hn. simpl. rewrite Hn. eauto.
  - cbn [line_loop]. destruct (i <? l)%float eqn:Hi; [|eauto].
    destruct (IH (i + 1)%float (x + ax)%float (y + ay)%float) as [calls Hc].
    { rewrite <- iter_incr_shift. exact Hn. }
    cbn [line_loop] in Hc. rewrite Hc. eauto.
Qed.

(** With the bound at +Infinity the loop never ends. *)
Lemma line_loop_diverges resource ax ay r g b fuel :
  forall i x y,
    counter_value i ->
    line_loop fuel resource infinity ax ay r g b i x y = None.
Proof.
  induction fuel as [|fuel IH]; intros i x y Hi; [reflexivity|].
  cbn [line_loop]. rewrite (counter_value_lt_infinity i Hi).
  rewrite IH by (apply counter_value_succ, Hi). reflexivity.
Qed.

Lemma sample_step x y ax ay k :
  sample x y ax ay (S k) = sample (x + ax)%float (y + ay)%float ax ay k.
Proof.
  unfold sample.
  pose proof (nat_iter_shift (fun x => (x + ax)%float) k x) as Ex.
  pose proof (nat_iter_shift (fun y => (y + ay)%float) k y) as Ey.
  cbv beta in Ex, Ey. rewrite Ex, Ey. reflexivity.
Qed.

(** A finished run of the loop made [n] samples, where [n] is the first
    counter value that is not below [l], at the positions [sample 0 .. n-1],
    and called the pixel setter for those inside the resource. *)
Lemma line_loop_samples resource l ax ay r g b fuel :
  forall i x y calls,
    line_loop fuel resource l ax ay r g b i x y = Some calls ->
    exists n : nat,
      (n < fuel)%nat /\
      (forall k, (k < n)%nat -> (Nat.iter k (fun i => i + 1) i <? l)%float = true) /\
      (Nat.iter n (fun i => i + 1) i <? l)%float = false /\
      calls = sample_calls resource r g b (map (sample x y ax ay) (seq 0 n)).
Proof.
  induction fuel as [|fuel IH]; intros i x y calls H; [discriminate|].
  cbn [line_loop] in H. destruct (i <? l)%float eqn:Hi.
  - destruct (line_loop fuel resource l ax ay r g b (i + 1) (x + ax) (y + ay))
      as [calls'|] eqn:Hrec; [|discriminate].
    destruct (IH _ _ _ _ Hrec) as (n & Hn & Hlt & Hge & Hcalls).
    exists (S n). split; [lia|]. split; [|split].
    + intros [|k] Hk; [exact Hi|].
      rewrite iter_incr_shift. apply Hlt. lia.
    + rewrite iter_incr_shift. exact Hge.
    + injection H as <-. rewrite Hcalls.
      change (seq 0 (S n)) with (0%nat :: seq 1 n).
      rewrite <- seq_shift, map_cons, map_map.
      rewrite (map_ext _ _ (fun k => sample_step x y ax ay k)).
      cbn [sample_calls flat_map]. unfold sample at 1 2 3 4. cbn [Nat.iter fst snd].
      destruct (_ && _); reflexivity.
  - injection H as <-. exists 0%nat. repeat split; [lia| |exact Hi].
    intros k Hk; lia.
Qed.

Lemma clamp_double_range p :
  (p =? p)%float = true ->
  (one_tenth <=? clamp_double p one_tenth 2)%float = true /\
  (clamp_double p one_tenth 2 <=? 2)%float = true.
Proof.
  intros Hp. unfold clamp_double.
  destruct (p <? one_tenth)%float eqn:Hlo; [split; reflexivity|].
  destruct (2 <? p)%float eqn:Hhi; [split; reflexivity|].
  rewrite FloatAxioms.eqb_spec in Hp. rewrite ltb_spec in Hlo, Hhi.
  rewrite !leb_spec. split.
  - apply SFltb_false_leb; [|exact Hlo].
    apply SFcompare_defined; [exact Hp|reflexivity].
  - apply SFltb_false_leb; [|exact Hhi].
    apply SFcompare_defined; [reflexivity|exact Hp].
Qed.

(** The run of the line from (0,0) to (4,0) with [p = 1]: four samples, at
    x = 0, 1, 2, 3 on the row y = 0, then the counter reaches [l = 4]. *)
Lemma line_0_4_run fuel resource r g b :
  bmp_plot_line (5 + fuel) resource 0 0 4 0 r g b 1
  = Some (sample_calls resource r g b
            [(0, 0); (1, 0); (2, 0); (3, 0)]%float, true).
Proof.
  rewrite bmp_plot_line_unfold.
  change (line_length 0 0 4 0 1) with 4%float.
  change ((4 - 0) / 4)%float with 1%float.
  change ((0 - 0) / 4)%float with 0%float.
  cbv zeta. cbn [Nat.add line_loop].
  change (0 <? 4)%float with true. change (0 + 1)%float with 1%float.
  change (1 <? 4)%float with true. change (1 + 1)%float with 2%float.
  change (2 <? 4)%float with true. change (2 + 1)%float with 3%float.
  change (3 <? 4)%float with true. change (3 + 1)%float with 4%float.
  change (4 <? 4)%float with false. change (0 + 0)%float with 0%float.
  cbv iota. unfold sample_calls. cbn [flat_map fst snd app].
  repeat destruct (_ && _); reflexivity.
Qed.

(** ** Counted loops *)

Lemma for_range_empty {S : Type} lo hi (body : Z -> S -> S) s :
  hi <= lo -> for_range lo hi body s = s.
Proof. intros H. unfold for_range. rewrite seqZ_nil by lia. reflexivity. Qed.

Lemma for_range_snoc {S : Type} lo hi (body : Z -> S -> S) s :
  lo <= hi ->
  for_range lo (hi + 1) body s = body hi (for_range lo hi body s).
Proof.
  intros H. unfold for_range.
  replace (hi + 1 - lo) with (Z.of_nat (Datatypes.S (Z.to_nat (hi - lo)))) by lia.
  rewrite seqZ_S, fold_left_app, Z2Nat.id by lia. cbn [fold_left].
  f_equal. lia.
Qed.

(** The invariant rule: [P i] holds before the iteration at [i]. *)
Lemma for_range_inv {S : Type} (P : Z -> S -> Prop) lo hi (body : Z -> S -> S) s :
  P lo s ->
  (forall i s, lo <= i < hi -> P i s -> P (i + 1) (body i s)) ->
  P (Z.max lo hi) (for_range lo hi body s).
Proof.
  intros H0 Hstep.
  destruct (Z_le_gt_dec hi lo) as [Hle|Hgt].
  { rewrite for_range_empty, Z.max_l by lia. exact H0. }
  rewrite Z.max_r by lia.
  assert (forall n : nat, lo + Z.of_nat n <= hi ->
            P (lo + Z.of_nat n) (for_range lo (lo + Z.of_nat n) body s)) as Hn.
  { induction n as [|n IH]; intros Hb.
    - rewrite for_range_empty by lia. replace (lo + Z.of_nat 0) with lo by lia.
      exact H0.
    - replace (lo + Z.of_nat (Datatypes.S n)) with (lo + Z.of_nat n + 1) by lia.
      rewrite for_range_snoc by lia. apply Hstep; [lia|]. apply IH. lia. }
  specialize (Hn (Z.to_nat (hi - lo))).
  replace (lo + Z.of_nat (Z.to_nat (hi - lo))) with hi in Hn by lia.
  apply Hn. lia.
Qed.

(** ** The store under the pixel setter *)

Lemma set_pixel_width r x y c : width (set_pixel r x y c) = width r.
Proof. unfold set_pixel. destruct (in_bounds r x y); reflexivity. Qed.

Lemma set_pixel_height r x y c : height (set_pixel r x y c) = height r.
Proof. unfold set_pixel. destruct (in_bounds r x y); reflexivity. Qed.

Lemma in_bounds_spec r x y :
  in_bounds r x y = true <-> 0 <= x < width r /\ 0 <= y < height r.
Proof. unfold in_bounds. rewrite !andb_true_iff. lia. Qed.

Lemma get_set_pixel r x y c X Y :
  get_pixel (set_pixel r x y c) X Y =
  if in_bounds r x y && (X =? x) && (Y =? y) then c else get_pixel r X Y.
Proof.
  unfold set_pixel, get_pixel. destruct (in_bounds r x y); [|reflexivity].
  cbn [bitmap andb]. reflexivity.
Qed.

Lemma set_length σ l x y r g b :
  length (bmp_resource_set_pixel σ l x y r g b) = length σ.
Proof. apply length_alter. Qed.

Lemma set_lookup_ne σ l l' x y r g b :
  l <> l' -> bmp_resource_set_pixel σ l x y r g b !! l' = σ !! l'.
Proof. intros H. apply list_lookup_alter_ne, H. Qed.

Lemma set_res_width σ l l' x y r g b :
  res_width (bmp_resource_set_pixel σ l x y r g b) l' = res_width σ l'.
Proof.
  unfold res_width, bmp_resource_set_pixel.
  destruct (decide (l = l')) as [->|Hne].
  - rewrite list_lookup_alter_eq. destruct (σ !! l'); [|reflexivity].
    cbn. apply set_pixel_width.
  - rewrite list_lookup_alter_ne by exact Hne. reflexivity.
Qed.

Lemma set_res_height σ l l' x y r g b :
  res_height (bmp_resource_set_pixel σ l x y r g b) l' = res_height σ l'.
Proof.
  unfold res_height, bmp_resource_set_pixel.
  destruct (decide (l = l')) as [->|Hne].
  - rewrite list_lookup_alter_eq. destruct (σ !! l'); [|reflexivity].
    cbn. apply set_pixel_height.
  - rewrite list_lookup_alter_ne by exact Hne. reflexivity.
Qed.

(** Reading after a write: the written triple at the written in-bounds
    position of the written resource, the old value anywhere else. *)
Lemma get_set_same σ l x y r g b :
  0 <= x < res_width σ l -> 0 <= y < res_height σ l ->
  bmp_resource_get_pixel (bmp_resource_set_pixel σ l x y r g b) l x y = (r, g, b).
Proof.
  unfold res_width, res_height, bmp_resource_get_pixel, bmp_resource_set_pixel.
  intros Hx Hy. rewrite list_lookup_alter_eq.
  destruct (σ !! l) as [res|]; [|lia]. cbn.
  rewrite get_set_pixel.
  replace (in_bounds res x y) with true
    by (symmetry; apply in_bounds_spec; lia).
  rewrite !Z.eqb_refl. reflexivity.
Qed.

Lemma get_set_other σ l l' x y r g b X Y :
  l' <> l \/ X <> x \/ Y <> y \/
    ~ (0 <= x < res_width σ l /\ 0 <= y < res_height σ l) ->
  bmp_resource_get_pixel (bmp_resource_set_pixel σ l x y r g b) l' X Y
  = bmp_resource_get_pixel σ l' X Y.
Proof.
  unfold res_width, res_height, bmp_resource_get_pixel, bmp_resource_set_pixel.
  intros H. destruct (decide (l = l')) as [->|Hne].
  - rewrite list_lookup_alter_eq. destruct (σ !! l') as [res|]; [|reflexivity].
    cbn. rewrite get_set_pixel.
    destruct (in_bounds res x y) eqn:Hb; [|reflexivity].
    apply in_bounds_spec in Hb.
    destruct (Z.eqb_spec X x), (Z.eqb_spec Y y); try reflexivity.
    exfalso. destruct H as [H|[H|[H|H]]]; [congruence|lia|lia|apply H; lia].
  - rewrite list_lookup_alter_ne by exact Hne. reflexivity.
Qed.

(** ** Painting a region pixel by pixel *)

Lemma painted_start σ p C : painted σ σ p (fun _ _ => False) C.
Proof. constructor; try reflexivity; intros; tauto. Qed.

Lemma painted_ext σ0 σ p (V V' : Z -> Z -> Prop) C :
  (forall X Y, V X Y <-> V' X Y) -> painted σ0 σ p V C -> painted σ0 σ p V' C.
Proof.
  intros HV [Hlen Hoth Hw Hh Hin Hout]. constructor; try assumption.
  - intros X Y HV'. apply Hin, HV, HV'.
  - intros X Y HV'. apply Hout. rewrite HV. exact HV'.
Qed.

(** One guarded write of lines 41-43, 107-109, 151-160 or 281-290. *)
Lemma painted_step σ0 σ p (V : Z -> Z -> Prop) C x y r g b :
  painted σ0 σ p V C ->
  C x y = (r, g, b) ->
  painted σ0
    (if (x <? res_width σ p) && (y <? res_height σ p)
     then bmp_resource_set_pixel σ p x y r g b else σ)
    p (fun X Y => V X Y \/ (X = x /\ Y = y)) C.
Proof.
  intros [Hlen Hoth Hw Hh Hin Hout] HC.
  destruct ((x <? res_width σ p) && (y <? res_height σ p)) eqn:Hguard.
  - apply andb_true_iff in Hguard as [Hgx Hgy].
    apply Z.ltb_lt in Hgx, Hgy.
    constructor.
    + rewrite set_length. exact Hlen.
    + intros l Hl. rewrite set_lookup_ne by congruence. apply Hoth, Hl.
    + rewrite set_res_width. exact Hw.
    + rewrite set_res_height. exact Hh.
    + intros X Y HV HX HY.
      destruct (decide (X = x /\ Y = y)) as [[-> ->]|Hne].
      * rewrite get_set_same by lia. symmetry. exact HC.
      * rewrite get_set_other by lia. apply Hin; [|lia|lia].
        destruct HV as [HV|HV]; [exact HV|tauto].
    + intros X Y HnV.
      rewrite get_set_other; [apply Hout; tauto|].
      destruct (decide (X = x /\ Y = y)) as [[-> ->]|Hne]; [|lia].
      right; right; right. rewrite Hw, Hh. intros [HX HY]. apply HnV. tauto.
  - constructor; try assumption.
    + intros X Y [HV|[-> ->]] HX HY; [apply Hin; assumption|].
      apply andb_false_iff in Hguard. rewrite Hw, Hh in Hguard.
      destruct Hguard as [Hg|Hg]; apply Z.ltb_ge in Hg; lia.
    + intros X Y HnV. apply Hout. tauto.
Qed.

(** ** bmp_plot_rect *)

Lemma bmp_plot_rect_painted σ p x y w h r g b :
  painted σ (fst (bmp_plot_rect σ p x y w h r g b)) p
    (fun X Y => x <= X < x + w /\ y <= Y < y + h) (fun _ _ => (r, g, b)).
Proof.
  unfold bmp_plot_rect. cbn [fst].
  set (C := fun _ _ : Z => (r, g, b)).
  apply painted_ext
    with (V := fun X Y => x <= X < x + w /\ y <= Y < Z.max y (h + y)); [intros; lia|].
  apply (for_range_inv
           (fun y2 s => painted σ s p (fun X Y => x <= X < x + w /\ y <= Y < y2) C)).
  { eapply painted_ext; [|apply painted_start]. intros; cbv beta; lia. }
  intros y2 s Hy2 Hs.
  apply painted_ext
    with (V := fun X Y => (x <= X < x + w /\ y <= Y < y2) \/
                          (Y = y2 /\ x <= X < Z.max x (w + x))); [intros; lia|].
  apply (for_range_inv
           (fun x2 s => painted σ s p
              (fun X Y => (x <= X < x + w /\ y <= Y < y2) \/
                          (Y = y2 /\ x <= X < x2)) C)).
  { eapply painted_ext; [|exact Hs]. intros; cbv beta; lia. }
  intros x2 s' Hx2 Hs'.
  eapply painted_ext; [|apply painted_step; [exact Hs'|reflexivity]].
  intros; cbv beta; lia.
Qed.

(** ** bmp_plot_resource *)

Lemma copy_extent_default dim : copy_extent (-1) dim = dim.
Proof.
  unfold copy_extent, clamp. change (-1 <? -1) with false. cbv iota zeta.
  destruct (Z.ltb_spec dim (-1)); [|reflexivity].
  destruct (Z.eqb_spec dim (-1)); [lia|reflexivity].
Qed.

(** The extent in closed form: a request of -1 or below selects the child's
    whole dimension, any other request is cut at the child's dimension. *)
Lemma copy_extent_spec w dim :
  0 <= dim -> copy_extent w dim = if w <=? -1 then dim else Z.min w dim.
Proof.
  intros Hdim. unfold copy_extent, clamp.
  destruct (Z.ltb_spec w (-1)), (Z.leb_spec w (-1)); try lia; [reflexivity|..].
  - destruct (Z.ltb_spec dim w); [lia|].
    replace w with (-1) by lia. reflexivity.
  - destruct (Z.ltb_spec dim w).
    + destruct (Z.eqb_spec dim (-1)); lia.
    + destruct (Z.eqb_spec w (-1)); lia.
Qed.

(** The copy loop reading from a resource other than the one it writes. *)
Lemma copy_loop_painted σ p c x y w h :
  c <> p ->
  painted σ (copy_loop σ p c x y w h) p
    (fun X Y => 0 <= X - x < w /\ 0 <= Y - y < h)
    (fun X Y => bmp_resource_get_pixel σ c (X - x) (Y - y)).
Proof.
  intros Hcp. unfold copy_loop.
  set (C := fun X Y => bmp_resource_get_pixel σ c (X - x) (Y - y)).
  apply painted_ext
    with (V := fun X Y => 0 <= X - x < Z.max 0 w /\ 0 <= Y - y < h); [intros; lia|].
  apply (for_range_inv
           (fun x1 s => painted σ s p (fun X Y => 0 <= X - x < x1 /\ 0 <= Y - y < h) C)).
  { eapply painted_ext; [|apply painted_start]. intros; cbv beta; lia. }
  intros x1 s Hx1 Hs.
  apply painted_ext
    with (V := fun X Y => (0 <= X - x < x1 /\ 0 <= Y - y < h) \/
                          (X - x = x1 /\ 0 <= Y - y < Z.max 0 h)); [intros; lia|].
  apply (for_range_inv
           (fun y1 s => painted σ s p
              (fun X Y => (0 <= X - x < x1 /\ 0 <= Y - y < h) \/
                          (X - x = x1 /\ 0 <= Y - y < y1)) C)).
  { eapply painted_ext; [|exact Hs]. intros; cbv beta; lia. }
  intros y1 s' Hy1 Hs'.
  assert (bmp_resource_get_pixel s' c x1 y1 = C (x1 + x) (y1 + y)) as Hread.
  { unfold C, bmp_resource_get_pixel.
    rewrite (painted_others _ _ _ _ _ Hs' c Hcp).
    replace (x1 + x - x) with x1 by lia. replace (y1 + y - y) with y1 by lia.
    reflexivity. }
  destruct (bmp_resource_get_pixel s' c x1 y1) as [[c0 c1] c2].
  eapply painted_ext; [|apply painted_step; [exact Hs'|symmetry; exact Hread]].
  intros; cbv beta; lia.
Qed.

Lemma clone_get σ (rc : bmp) l X Y :
  (l < length σ)%nat ->
  bmp_resource_get_pixel (σ ++ [rc]) l X Y = bmp_resource_get_pixel σ l X Y.
Proof.
  intros Hl. unfold bmp_resource_get_pixel. rewrite lookup_app_l by exact Hl.
  reflexivity.
Qed.

Lemma clone_read σ (rc : bmp) c X Y :
  σ !! c = Some rc ->
  bmp_resource_get_pixel (σ ++ [rc]) (length σ) X Y = bmp_resource_get_pixel σ c X Y.
Proof.
  intros Hc. unfold bmp_resource_get_pixel.
  rewrite lookup_app_r, Nat.sub_diag, Hc by lia. reflexivity.
Qed.

(** The whole of [bmp_plot_resource], parent and child live objects that may
    be one and the same: the parent gets, at every in-bounds position of the
    copied region, the child's pixel of the store at call entry. *)
Lemma bmp_plot_resource_effect σ p c x y w h rp rc :
  σ !! p = Some rp -> σ !! c = Some rc ->
  let σ' := fst (bmp_plot_resource σ p c x y w h) in
  let we := copy_extent w (width rc) in
  let he := copy_extent h (height rc) in
  (forall X Y,
     0 <= X - x < we -> 0 <= Y - y < he ->
     0 <= X < width rp -> 0 <= Y < height rp ->
     bmp_resource_get_pixel σ' p X Y = bmp_resource_get_pixel σ c (X - x) (Y - y)) /\
  (forall X Y,
     ~ (0 <= X - x < we /\ 0 <= Y - y < he /\
        0 <= X < width rp /\ 0 <= Y < height rp) ->
     bmp_resource_get_pixel σ' p X Y = bmp_resource_get_pixel σ p X Y) /\
  res_width σ' p = width rp /\ res_height σ' p = height rp /\
  (forall l, l <> p -> (l < length σ)%nat -> σ' !! l = σ !! l).
Proof.
  intros Hp Hc σ' we he.
  assert (p < length σ)%nat as Hlen by (eapply lookup_lt_Some; exact Hp).
  assert (σ' = copy_loop (σ ++ [rc]) p (length σ) x y we he) as ->.
  { unfold σ', bmp_plot_resource, structuredClone. rewrite Hc. cbn [fst].
    unfold we, he, res_width, res_height.
    rewrite lookup_app_r, Nat.sub_diag by lia. reflexivity. }
  pose proof (copy_loop_painted (σ ++ [rc]) p (length σ) x y we he ltac:(lia))
    as [Hl Hoth Hw Hh Hin Hout].
  assert (res_width (σ ++ [rc]) p = width rp) as Ewp
    by (unfold res_width; rewrite lookup_app_l, Hp by exact Hlen; reflexivity).
  assert (res_height (σ ++ [rc]) p = height rp) as Ehp
    by (unfold res_height; rewrite lookup_app_l, Hp by exact Hlen; reflexivity).
  rewrite Ewp in *. rewrite Ehp in *.
  repeat split; try assumption.
  - intros X Y HX HY HbX HbY.
    rewrite Hin by (cbv beta; lia).
    apply clone_read, Hc.
  - intros X Y Hn. rewrite Hout by (cbv beta; tauto). apply clone_get, Hlen.
  - intros l Hne Hlt. rewrite Hoth by exact Hne. apply lookup_app_l, Hlt.
Qed.

(** Every read of the copy loop is inside the child. *)
Lemma copy_reads_in_bounds rc w h x1 y1 :
  0 <= width rc -> 0 <= height rc ->
  0 <= x1 < copy_extent w (width rc) -> 0 <= y1 < copy_extent h (height rc) ->
  in_bounds rc x1 y1 = true.
Proof.
  intros Hw Hh. rewrite !copy_extent_spec by assumption. intros Hx Hy.
  apply in_bounds_spec.
  destruct (w <=? -1), (h <=? -1); lia.
Qed.

(** ** bmp_plot_text *)

Lemma glyph_pixel_res_width p c k cxo xo yo ly lx σ l :
  res_width (glyph_pixel p c k cxo xo yo ly lx σ) l = res_width σ l.
Proof.
  unfold glyph_pixel.
  destruct (text_pixel _ k) as [[[c0 c1] c2]|]; [|reflexivity].
  destruct (_ && _); [apply set_res_width|reflexivity].
Qed.

Lemma plot_glyph_res_width p c k fw fh cxo xo yo σ l :
  res_width (plot_glyph p c k fw fh cxo xo yo σ) l = res_width σ l.
Proof.
  unfold plot_glyph.
  apply (for_range_inv (fun _ s => res_width s l = res_width σ l)); [reflexivity|].
  intros ly s _ Hs.
  apply (for_range_inv (fun _ s => res_width s l = res_width σ l)); [exact Hs|].
  intros lx s' _ Hs'. rewrite glyph_pixel_res_width. exact Hs'.
Qed.

(** Every read of a glyph loop is inside the atlas, whatever the character
    code. *)
Lemma glyph_reads_in_bounds atlas code lx ly :
  width atlas mod 96 = 0 ->
  let fw := width atlas / 96 in
  let fc := width atlas / fw in
  0 <= lx < fw -> 0 <= ly < height atlas ->
  in_bounds atlas (lx + glyph_column fw fc code) ly = true.
Proof.
  intros Hmod fw fc Hlx Hly.
  assert (width atlas = 96 * fw) as Hw
    by (unfold fw; apply Z.div_exact in Hmod; lia).
  assert (fc = 96) as -> by (unfold fc; rewrite Hw at 1; apply Z.div_mul; lia).
  apply in_bounds_spec. rewrite Hw. unfold glyph_column.
  destruct (Z.ltb_spec code 32), (Z.ltb_spec 126 code); cbn [orb]; try nia.
Qed.

(** [text_loop] draws exactly the glyphs listed by [text_glyphs], in order. *)
Lemma text_loop_glyphs p c k wrap fw fh fc xs codes :
  forall xo yo σ,
    text_loop p c k wrap fw fh fc xs codes xo yo σ =
    fold_left
      (fun s g => plot_glyph p c k fw fh (fst (fst g)) (snd (fst g)) (snd g) s)
      (text_glyphs wrap fw fh fc xs (res_width σ p) codes xo yo) σ.
Proof.
  induction codes as [|code rest IH]; intros xo yo σ; [reflexivity|].
  cbn [text_loop text_glyphs]. destruct (is_newline code); [apply IH|].
  destruct (wrap_cursor wrap fw fh xs (res_width σ p) (xo, yo)) as [xo' yo'].
  cbn [fold_left fst snd]. rewrite IH, plot_glyph_res_width. reflexivity.
Qed.

Lemma sorted_rows_unique (rows : list Z) (row : Z) :
  StronglySorted Z.lt rows ->
  (length (List.filter (fun r => (r =? row)%Z) rows) <= 1)%nat.
Proof.
  induction 1 as [|a rows Hs IH Hall]; [simpl; lia|].
  cbn [List.filter]. destruct (Z.eqb_spec a row) as [->|Hne]; [|exact IH].
  assert (List.filter (fun r => r =? row) rows = []) as ->; [|simpl; lia].
  clear IH Hs. induction rows as [|b rows IHr]; [reflexivity|].
  apply Forall_cons in Hall as [Hb Hall].
  cbn [List.filter]. destruct (Z.eqb_spec b row); [lia|]. apply IHr, Hall.
Qed.

Lemma glyphs_in_row_rows glyphs row :
  glyphs_in_row glyphs row = length (List.filter (fun r => r =? row) (map snd glyphs)).
Proof.
  unfold glyphs_in_row. induction glyphs as [|g glyphs IH]; [reflexivity|].
  cbn [List.filter map]. destruct (snd g =? row); cbn [length]; rewrite IH; reflexivity.
Qed.

(** With a non-negative anchor and a destination narrower than two glyphs,
    wrapped text starts every glyph on a row below the previous glyph's. *)
Lemma wrapped_rows_increase fw fh fc x width_p codes :
  0 <= x -> width_p < 2 * fw -> 0 < fh ->
  forall xo yo,
    xo = x \/ xo = x + fw ->
    let rows := map snd (text_glyphs true fw fh fc x width_p codes xo yo) in
    StronglySorted Z.lt rows /\
    Forall (fun row => yo <= row /\ (xo = x + fw -> yo < row)) rows.
Proof.
  intros Hx Hw Hfh. induction codes as [|code rest IH]; intros xo yo Hxo.
  { split; constructor. }
  cbn [text_glyphs]. destruct (is_newline code).
  - destruct (IH x (yo + fh) (or_introl eq_refl)) as [Hs Hall]. split; [exact Hs|].
    eapply Forall_impl; [exact Hall|]. cbv beta. intros row ?. lia.
  - unfold wrap_cursor. cbn [andb].
    destruct (Z.ltb_spec width_p (xo + fw)) as [Hwrap|Hno].
    + destruct (IH (x + fw) (yo + fh) (or_intror eq_refl)) as [Hs Hall].
      cbn [map snd]. split.
      * constructor; [exact Hs|].
        eapply Forall_impl; [exact Hall|]. cbv beta. intros row ?. lia.
      * constructor; [lia|].
        eapply Forall_impl; [exact Hall|]. cbv beta. intros row ?. lia.
    + assert (xo = x /\ xo <> x + fw) as [-> Hne] by lia.
      destruct (IH (x + fw) yo (or_intror eq_refl)) as [Hs Hall].
      cbn [map snd]. split.
      * constructor; [exact Hs|].
        eapply Forall_impl; [exact Hall|]. cbv beta. intros row ?. lia.
      * constructor; [lia|].
        eapply Forall_impl; [exact Hall|]. cbv beta. intros row ?. lia.
Qed.


(** ** When the line loop returns *)

Lemma counter_two53 n : Z.of_nat n = 2 ^ 53 - 1 -> counter (S n) = two53.
Proof.
  intros Hn. change (counter (S n)) with (counter n + 1)%float.
  apply Prim2SF_inj. rewrite add_spec, counter_exact, Prim2SF_one by lia.
  replace (Pos.of_nat n) with 9007199254740991%positive by lia.
  vm_compute. reflexivity.
Qed.

(** The loop returns whenever its bound is not above 2^53 (a NaN bound
    included): the counter reaches 2^53 exactly. *)
Lemma bmp_plot_line_returns resource x1 y1 x2 y2 r g b p :
  (two53 <? line_length x1 y1 x2 y2 p)%float = false ->
  exists fuel calls,
    bmp_plot_line fuel resource x1 y1 x2 y2 r g b p = Some (calls, true).
Proof.
  intros Hl.
  assert (exists n : nat, Z.of_nat n = 2 ^ 53 - 1) as [n Hn]
    by (exists (Z.to_nat (2 ^ 53 - 1)); lia).
  destruct (line_loop_terminates resource (line_length x1 y1 x2 y2 p)
              ((x2 - x1) / line_length x1 y1 x2 y2 p)%float
              ((y2 - y1) / line_length x1 y1 x2 y2 p)%float
              r g b (S n) 0%float x1 y1) as [calls Hc].
  { fold (counter (S n)). rewrite (counter_two53 n Hn). exact Hl. }
  exists (S (S n)), calls.
  rewrite bmp_plot_line_unfold. cbv zeta. rewrite Hc. reflexivity.
Qed.

(** With a bound of +Infinity it never returns. *)
Lemma bmp_plot_line_diverges fuel resource x1 y1 x2 y2 r g b p :
  line_length x1 y1 x2 y2 p = infinity ->
  bmp_plot_line fuel resource x1 y1 x2 y2 r g b p = None.
Proof.
  intros Hl. rewrite bmp_plot_line_unfold. cbv zeta. rewrite Hl.
  rewrite line_loop_diverges by apply counter_value_zero. reflexivity.
Qed.

(** ** The outliners *)

Lemma plot_shape_result points fuel resource x y w h r g b p :
  plot_shape points fuel resource x y w h r g b p = None \/
  exists calls, plot_shape points fuel resource x y w h r g b p = Some (calls, true).
Proof. unfold plot_shape. destruct (plot_outline _ _ _ _ _ _ _ _ _ _ _); eauto. Qed.

Lemma plot_outline_cons fuel resource last curr rest x y w h r g b p :
  plot_outline fuel resource (last :: curr :: rest) x y w h r g b p =
  match bmp_plot_line fuel resource
          (fst (map_point x y w h last)) (snd (map_point x y w h last))
          (fst (map_point x y w h curr)) (snd (map_point x y w h curr))
          r g b p with
  | Some (calls, _) =>
      match plot_outline fuel resource (curr :: rest) x y w h r g b p with
      | Some calls' => Some (calls ++ calls')
      | None => None
      end
  | None => None
  end.
Proof. reflexivity. Qed.

(** An outliner returns as soon as each of its line calls does. *)
Lemma plot_shape_returns points fuel resource x y w h r g b p :
  (forall s, In s (segments points) ->
     bmp_plot_line fuel resource
       (fst (map_point x y w h (fst s))) (snd (map_point x y w h (fst s)))
       (fst (map_point x y w h (snd s))) (snd (map_point x y w h (snd s)))
       r g b p <> None) ->
  exists calls, plot_shape points fuel resource x y w h r g b p = Some (calls, true).
Proof.
  intros Hsegs.
  assert (exists calls,
            plot_outline fuel resource points x y w h r g b p = Some calls) as [calls Hc].
  { induction points as [|last [|curr rest] IH]; [eexists; reflexivity..|].
    rewrite plot_outline_cons.
    pose proof (Hsegs (last, curr) (or_introl eq_refl)) as Hline.
    cbn [fst snd] in Hline.
    destruct (bmp_plot_line fuel resource _ _ _ _ r g b p) as [[calls ?]|];
      [|congruence].
    destruct IH as [calls' Hc'].
    { intros s Hs. apply Hsegs. right. exact Hs. }
    rewrite Hc'. eauto. }
  unfold plot_shape. rewrite Hc. eauto.
Qed.

(* ===================================================================== *)
(** * Part III: the claims *)
(* ===================================================================== *)

(** C1, as amended: in [bmp_plot_text] every pixel of a glyph cell goes
    through [glyph_pixel], which decides by the atlas colour.  A pure white
    atlas pixel is drawn (clipped to the parent) with the foreground colour
    when none of [fr], [fg], [fb] is -1 and is skipped, the store staying as
    it is, when one of them is -1.  A pure black atlas pixel is drawn with the
    background colour when none of [br], [bg], [bb] is -1 and is skipped when
    [br] or [bg] is -1.  Any other atlas colour is drawn unchanged. *)
Theorem text_pixel_rule :
  forall p c k fw fh cxo xo yo ly lx σ,
    let a := bmp_resource_get_pixel σ c (lx + cxo) ly in
    let draw := fun col : rgb =>
      if (xo + lx <? res_width σ p) && (yo + ly <? res_height σ p)
      then bmp_resource_set_pixel σ p (xo + lx) (yo + ly)
             (fst (fst col)) (snd (fst col)) (snd col)
      else σ in
    let result := glyph_pixel p c k cxo xo yo ly lx σ in
    plot_glyph p c k fw fh cxo xo yo σ =
      for_range 0 fh (fun ly σ =>
        for_range 0 fw (fun lx σ => glyph_pixel p c k cxo xo yo ly lx σ) σ) σ /\
    (a = (255, 255, 255) -> fr k <> -1 /\ fg k <> -1 /\ fb k <> -1 ->
       result = draw (fr k, fg k, fb k)) /\
    (a = (255, 255, 255) -> fr k = -1 \/ fg k = -1 \/ fb k = -1 ->
       result = σ) /\
    (a = (0, 0, 0) -> br k <> -1 /\ bg k <> -1 /\ bb k <> -1 ->
       result = draw (br k, bg k, bb k)) /\
    (a = (0, 0, 0) -> br k = -1 \/ bg k = -1 -> result = σ) /\
    (a <> (255, 255, 255) -> a <> (0, 0, 0) -> result = draw a).
Proof.
  intros p c k fw fh cxo xo yo ly lx σ a draw result.
  split; [reflexivity|].
  unfold result, draw, glyph_pixel. fold a. unfold text_pixel.
  repeat split.
  - intros -> (Hr & Hg & Hb). cbn.
    destruct (Z.eqb_spec (fr k) (-1)), (Z.eqb_spec (fg k) (-1)),
      (Z.eqb_spec (fb k) (-1)); try lia. reflexivity.
  - intros -> H. cbn.
    destruct (Z.eqb_spec (fr k) (-1)), (Z.eqb_spec (fg k) (-1)),
      (Z.eqb_spec (fb k) (-1)); try lia; reflexivity.
  - intros -> (Hr & Hg & Hb). cbn.
    destruct (Z.eqb_spec (br k) (-1)), (Z.eqb_spec (bg k) (-1)); try lia.
    reflexivity.
  - intros -> H. cbn.
    destruct (Z.eqb_spec (br k) (-1)), (Z.eqb_spec (bg k) (-1)); try lia;
      reflexivity.
  - intros Hw Hb. destruct a as [[c0 c1] c2].
    destruct (Z.eqb_spec c0 255), (Z.eqb_spec c1 255), (Z.eqb_spec c2 255);
      try (exfalso; apply Hw; congruence); cbn [andb fst snd];
      destruct (Z.eqb_spec c0 0), (Z.eqb_spec c1 0), (Z.eqb_spec c2 0);
      try (exfalso; apply Hb; congruence); reflexivity.
Qed.

Lemma text_pixel_rule_witness :
  glyph_pixel 0 1 (TextColors 1 2 3 (-1) (-1) (-1)) 0 0 0 0 0
    [plain 1 1 (7, 7, 7); plain 96 1 (255, 255, 255)]
  = bmp_resource_set_pixel
      [plain 1 1 (7, 7, 7); plain 96 1 (255, 255, 255)] 0 0 0 1 2 3.
Proof.
  refine (proj1 (proj2
    (text_pixel_rule 0%nat 1%nat (TextColors 1 2 3 (-1) (-1) (-1)) 1 1 0 0 0 0 0
       [plain 1 1 (7, 7, 7); plain 96 1 (255, 255, 255)])) eq_refl _).
  simpl. lia.
Defined.

(** C1, as stated, fails: with the foreground (-2, 10, 20), whose red channel
    is negative, the specification's rule skips a white atlas pixel, while
    the code draws it: the 1x1 parent's pixel changes from (7,7,7) to
    (-2,10,20). *)
Lemma text_pixel_negative_foreground :
  let k := TextColors (-2) 10 20 (-1) (-1) (-1) in
  let σ := [plain 1 1 (7, 7, 7); plain 96 1 (255, 255, 255)] in
  stated_text_pixel (255, 255, 255) k = None /\
  text_pixel (255, 255, 255) k = Some (-2, 10, 20) /\
  bmp_resource_get_pixel σ 0 0 0 = (7, 7, 7) /\
  exists σ',
    bmp_plot_text σ 0 1 0 0 "A" true k = Some (σ', true) /\
    bmp_resource_get_pixel σ' 0 0 0 = (-2, 10, 20).
Proof.
  cbv zeta. repeat split. eexists. split; [reflexivity|]. vm_compute. reflexivity.
Qed.

(** Besides: the background test reads [bg] twice and never [bb] (line 271),
    so a black atlas pixel under the background (0, 0, -1) is drawn, with a
    blue channel of -1. *)
Example text_pixel_blue_unchecked :
  text_pixel (0, 0, 0) (TextColors 255 255 255 0 0 (-1)) = Some (0, 0, -1).
Proof. reflexivity. Qed.



(** C3: for a zero-length segment ([x1 == x2] and [y1 == y2]) the loop bound
    is a zero or NaN, the loop body never runs, so no call of the pixel
    setter is made (no pixel is written, no NaN or Infinity reaches it), and
    the call returns [true]. *)
Theorem line_zero_length fuel resource x1 y1 x2 y2 r g b p :
  (x1 =? x2)%float = true -> (y1 =? y2)%float = true ->
  bmp_plot_line (S fuel) resource x1 y1 x2 y2 r g b p = Some ([], true).
Proof.
  intros Hx Hy. rewrite bmp_plot_line_unfold. cbv zeta. cbn [line_loop].
  rewrite ltb_spec.
  change (Prim2SF 0) with (S754_zero false).
  rewrite SFltb_zero_or_nan by (apply line_length_degenerate; assumption).
  reflexivity.
Qed.

Lemma line_zero_length_witness :
  bmp_plot_line 1 (LineTarget 10 10) 3 5 3 5 255 255 255 1 = Some ([], true).
Proof. apply line_zero_length; reflexivity. Defined.



(** C5, as amended: [bmp_plot_resource] first clamps each requested
    dimension into [[-1, source_dimension]]; a clamped value of -1, that is
    any request of -1 or below, selects the source's full dimension, and any
    other request is cut at the source's dimension; the copy loop then runs
    over [[0,w) x [0,h)] with these values. *)
Theorem copy_extent_rule σ p c x y w h rc :
  σ !! c = Some rc -> 0 <= width rc -> 0 <= height rc ->
  let we := if w <=? -1 then width rc else Z.min w (width rc) in
  let he := if h <=? -1 then height rc else Z.min h (height rc) in
  -1 <= clamp w (-1) (width rc) <= width rc /\
  -1 <= clamp h (-1) (height rc) <= height rc /\
  copy_extent w (width rc) = we /\
  copy_extent h (height rc) = he /\
  bmp_plot_resource σ p c x y w h =
    (copy_loop (σ ++ [rc]) p (length σ) x y we he, true).
Proof.
  intros Hc Hw Hh we he.
  split; [unfold clamp; destruct (Z.ltb_spec w (-1)), (Z.ltb_spec (width rc) w); lia|].
  split; [unfold clamp; destruct (Z.ltb_spec h (-1)), (Z.ltb_spec (height rc) h); lia|].
  split; [apply copy_extent_spec, Hw|].
  split; [apply copy_extent_spec, Hh|].
  unfold bmp_plot_resource, structuredClone. rewrite Hc.
  unfold res_width, res_height. rewrite lookup_app_r, Nat.sub_diag by lia.
  cbn [lookup list_lookup]. rewrite !copy_extent_spec by assumption. reflexivity.
Qed.

Lemma copy_extent_rule_witness :
  bmp_plot_resource [plain 4 4 (0, 0, 0); plain 4 4 (9, 9, 9)] 0 1 0 0 (-5) 7 =
  (copy_loop [plain 4 4 (0, 0, 0); plain 4 4 (9, 9, 9); plain 4 4 (9, 9, 9)]
     0 2 0 0 4 4, true).
Proof.
  refine (proj2 (proj2 (proj2 (proj2
    (copy_extent_rule [plain 4 4 (0, 0, 0); plain 4 4 (9, 9, 9)]
       0%nat 1%nat 0 0 (-5) 7 (plain 4 4 (9, 9, 9)) eq_refl _ _))))).
  - simpl. lia.
  - simpl. lia.
Defined.

(** C5, as stated, fails: a requested width of -5 on a source 4 wide is not
    "any other value clamped into [-1, 4]", which would be -1 and give an
    empty loop; the code copies the full width.  Here the parent's pixel
    (0,0) is overwritten by the source's, and would be left alone by a loop
    over the stated extents. *)
Lemma copy_extent_below_minus_one :
  let σ := [plain 4 4 (0, 0, 0); plain 4 4 (9, 9, 9)] in
  stated_extent (-5) 4 = -1 /\
  copy_extent (-5) 4 = 4 /\
  bmp_resource_get_pixel (fst (bmp_plot_resource σ 0 1 0 0 (-5) (-5))) 0 0 0
    = (9, 9, 9) /\
  bmp_resource_get_pixel
    (copy_loop (σ ++ [plain 4 4 (9, 9, 9)]) 0 2 0 0
       (stated_extent (-5) 4) (stated_extent (-5) 4)) 0 0 0
    = (0, 0, 0).
Proof. cbv zeta. repeat split; vm_compute; reflexivity. Qed.

(** C6: [bmp_plot_resource] copies from a clone of the child taken before
    any write.  Parent and child may be the same object: every value written
    to the parent is the child's pixel of the store at call entry, every
    other pixel of the parent, its dimensions and every other resource stay
    as they were.  Copying a 2x2 region of a 4x4 child to offset (1,1) of a
    4x4 parent writes exactly the pixels (1,1), (2,1), (1,2), (2,2). *)
Theorem bmp_plot_resource_snapshot σ p c rp rc :
  σ !! p = Some rp -> σ !! c = Some rc ->
  (forall x y w h,
     let σ' := fst (bmp_plot_resource σ p c x y w h) in
     let we := copy_extent w (width rc) in
     let he := copy_extent h (height rc) in
     (forall X Y,
        0 <= X - x < we -> 0 <= Y - y < he ->
        0 <= X < width rp -> 0 <= Y < height rp ->
        bmp_resource_get_pixel σ' p X Y
        = bmp_resource_get_pixel σ c (X - x) (Y - y)) /\
     (forall X Y,
        ~ (0 <= X - x < we /\ 0 <= Y - y < he /\
           0 <= X < width rp /\ 0 <= Y < height rp) ->
        bmp_resource_get_pixel σ' p X Y = bmp_resource_get_pixel σ p X Y) /\
     res_width σ' p = width rp /\ res_height σ' p = height rp /\
     (forall l, l <> p -> (l < length σ)%nat -> σ' !! l = σ !! l)) /\
  (width rp = 4 -> height rp = 4 -> width rc = 4 -> height rc = 4 ->
   forall X Y,
     bmp_resource_get_pixel (fst (bmp_plot_resource σ p c 1 1 2 2)) p X Y =
     if (1 <=? X) && (X <? 3) && (1 <=? Y) && (Y <? 3)
     then bmp_resource_get_pixel σ c (X - 1) (Y - 1)
     else bmp_resource_get_pixel σ p X Y).
Proof.
  intros Hp Hc. split.
  - intros x y w h. exact (bmp_plot_resource_effect σ p c x y w h rp rc Hp Hc).
  - intros Hwp Hhp Hwc Hhc X Y.
    destruct (bmp_plot_resource_effect σ p c 1 1 2 2 rp rc Hp Hc)
      as (Hin & Hout & _).
    rewrite Hwp, Hhp, Hwc, Hhc in *.
    change (copy_extent 2 4) with 2 in *.
    destruct (Z.leb_spec 1 X), (Z.ltb_spec X 3), (Z.leb_spec 1 Y), (Z.ltb_spec Y 3);
      cbn [andb]; first [apply Hin; lia | apply Hout; lia].
Qed.

Lemma bmp_plot_resource_snapshot_witness :
  bmp_resource_get_pixel
    (fst (bmp_plot_resource [plain 4 4 (0, 0, 0); plain 4 4 (9, 9, 9)] 0 1 1 1 2 2))
    0 2 1
  = bmp_resource_get_pixel [plain 4 4 (0, 0, 0); plain 4 4 (9, 9, 9)] 1 1 0.
Proof.
  exact (proj2 (bmp_plot_resource_snapshot
                  [plain 4 4 (0, 0, 0); plain 4 4 (9, 9, 9)] 0%nat 1%nat
                  (plain 4 4 (0, 0, 0)) (plain 4 4 (9, 9, 9)) eq_refl eq_refl)
           eq_refl eq_refl eq_refl eq_refl 2 1).
Defined.

(** C7: in [bmp_plot_text] a newline character (code 10 or 13) resets the
    cursor's x to the anchor's x, advances its y by [font_height], draws no
    glyph and leaves the store as it is.  So ["A\nB"] without word wrap is
    two glyphs, the first at the anchor [(x, y)], the second at
    [(x, y + font_height)]. *)
Theorem text_newline σ p c x y k :
  res_width σ c mod 96 = 0 ->
  let fw := res_width σ c / 96 in
  let fh := res_height σ c in
  let fc := res_width σ c / fw in
  let a_nl_b := String "A" (String "010" (String "B" EmptyString)) in
  (forall wrap rest xo yo s,
     text_loop p c k wrap fw fh fc x (10 :: rest) xo yo s
     = text_loop p c k wrap fw fh fc x rest x (yo + fh) s /\
     text_loop p c k wrap fw fh fc x (13 :: rest) xo yo s
     = text_loop p c k wrap fw fh fc x rest x (yo + fh) s) /\
  (forall wrap width_p rest xo yo,
     text_glyphs wrap fw fh fc x width_p (10 :: rest) xo yo
     = text_glyphs wrap fw fh fc x width_p rest x (yo + fh) /\
     text_glyphs wrap fw fh fc x width_p (13 :: rest) xo yo
     = text_glyphs wrap fw fh fc x width_p rest x (yo + fh)) /\
  text_glyphs false fw fh fc x (res_width σ p) (char_codes a_nl_b) x y
  = [(33 * fw, x, y); (34 * fw, x, y + fh)] /\
  bmp_plot_text σ p c x y a_nl_b false k
  = Some (plot_glyph p c k fw fh (34 * fw) x (y + fh)
            (plot_glyph p c k fw fh (33 * fw) x y σ), true).
Proof.
  intros Hatlas fw fh fc a_nl_b.
  split; [intros; split; reflexivity|].
  split; [intros; split; reflexivity|].
  split; [reflexivity|].
  unfold bmp_plot_text. rewrite (proj2 (Z.eqb_eq _ _) Hatlas). reflexivity.
Qed.

Lemma text_newline_witness :
  bmp_plot_text [plain 8 8 (0, 0, 0); plain 192 3 (255, 255, 255)] 0 1 4 5
    (String "A" (String "010" (String "B" EmptyString))) false
    (TextColors 1 2 3 (-1) (-1) (-1))
  = Some (plot_glyph 0 1 (TextColors 1 2 3 (-1) (-1) (-1)) 2 3 68 4 8
            (plot_glyph 0 1 (TextColors 1 2 3 (-1) (-1) (-1)) 2 3 66 4 5
               [plain 8 8 (0, 0, 0); plain 192 3 (255, 255, 255)]), true).
Proof.
  exact (proj2 (proj2 (proj2
    (text_newline [plain 8 8 (0, 0, 0); plain 192 3 (255, 255, 255)]
       0%nat 1%nat 4 5 (TextColors 1 2 3 (-1) (-1) (-1)) eq_refl)))).
Defined.







(** C10: compositing a resource onto itself at (0,0) with the default
    width and height (-1, -1) leaves each of its pixels, and its dimensions,
    unchanged: every write copies the value the same position had at call
    entry. *)
Theorem bmp_plot_resource_self σ a r :
  σ !! a = Some r ->
  let σ' := fst (bmp_plot_resource σ a a 0 0 (-1) (-1)) in
  (forall X Y, bmp_resource_get_pixel σ' a X Y = bmp_resource_get_pixel σ a X Y) /\
  res_width σ' a = width r /\ res_height σ' a = height r /\
  (forall l, (l < length σ)%nat -> res_width σ' l = res_width σ l /\
     res_height σ' l = res_height σ l /\
     forall X Y, bmp_resource_get_pixel σ' l X Y = bmp_resource_get_pixel σ l X Y).
Proof.
  intros Ha σ'.
  destruct (bmp_plot_resource_effect σ a a 0 0 (-1) (-1) r r Ha Ha)
    as (Hin & Hout & Hw & Hh & Hoth).
  fold σ' in Hin, Hout, Hw, Hh, Hoth.
  rewrite !copy_extent_default in Hin, Hout.
  assert (forall X Y,
            bmp_resource_get_pixel σ' a X Y = bmp_resource_get_pixel σ a X Y) as Hsame.
  { intros X Y.
    destruct (Z_lt_ge_dec X 0); [apply Hout; lia|].
    destruct (Z_lt_ge_dec Y 0); [apply Hout; lia|].
    destruct (Z_lt_ge_dec X (width r)); [|apply Hout; lia].
    destruct (Z_lt_ge_dec Y (height r)); [|apply Hout; lia].
    rewrite Hin by lia. rewrite !Z.sub_0_r. reflexivity. }
  repeat split; try assumption.
  - destruct (decide (l = a)) as [->|Hne].
    + rewrite Hw. unfold res_width. rewrite Ha. reflexivity.
    + unfold res_width. rewrite Hoth by assumption. reflexivity.
  - destruct (decide (l = a)) as [->|Hne].
    + rewrite Hh. unfold res_height. rewrite Ha. reflexivity.
    + unfold res_height. rewrite Hoth by assumption. reflexivity.
  - intros X Y. destruct (decide (l = a)) as [->|Hne]; [apply Hsame|].
    unfold bmp_resource_get_pixel. rewrite Hoth by assumption. reflexivity.
Qed.

Lemma bmp_plot_resource_self_witness :
  bmp_resource_get_pixel
    (fst (bmp_plot_resource
            [Resource 2 2 (fun x y => (x, y, 7))] 0 0 0 0 (-1) (-1))) 0 1 0
  = bmp_resource_get_pixel [Resource 2 2 (fun x y => (x, y, 7))] 0 1 0.
Proof.
  exact (proj1 (bmp_plot_resource_self
                  [Resource 2 2 (fun x y => (x, y, 7))] 0%nat
                  (Resource 2 2 (fun x y => (x, y, 7))) eq_refl) 1 0).
Defined.

(* ===================================================================== *)
(** * Part IV: further properties of the plot functions *)
(* ===================================================================== *)

(** ** bmp_plot_clear and bmp_plot_rect *)

(** The unguarded write of line 65. *)
Lemma painted_write σ0 σ p (V : Z -> Z -> Prop) C x y r g b :
  painted σ0 σ p V C ->
  C x y = (r, g, b) ->
  painted σ0 (bmp_resource_set_pixel σ p x y r g b)
    p (fun X Y => V X Y \/ (X = x /\ Y = y)) C.
Proof.
  intros [Hlen Hoth Hw Hh Hin Hout] HC. constructor.
  - rewrite set_length. exact Hlen.
  - intros l Hl. rewrite set_lookup_ne by congruence. apply Hoth, Hl.
  - rewrite set_res_width. exact Hw.
  - rewrite set_res_height. exact Hh.
  - intros X Y HV HX HY.
    destruct (decide (X = x /\ Y = y)) as [[-> ->]|Hne].
    + rewrite get_set_same by lia. symmetry. exact HC.
    + rewrite get_set_other by lia. apply Hin; [|lia|lia].
      destruct HV as [HV|HV]; [exact HV|tauto].
  - intros X Y HnV.
    rewrite get_set_other; [apply Hout; tauto|].
    destruct (decide (X = x /\ Y = y)) as [[-> ->]|Hne]; [|lia].
    right; right; right. rewrite Hw, Hh. intros [HX HY]. apply HnV. tauto.
Qed.

Lemma bmp_plot_clear_painted σ p r g b :
  painted σ (fst (bmp_plot_clear σ p r g b)) p
    (fun X Y => 0 <= X < res_width σ p /\ 0 <= Y < res_height σ p)
    (fun _ _ => (r, g, b)).
Proof.
  unfold bmp_plot_clear. cbn [fst].
  set (C := fun _ _ : Z => (r, g, b)).
  set (W := res_width σ p). set (H := res_height σ p).
  apply painted_ext
    with (V := fun X Y => 0 <= X < W /\ 0 <= Y < Z.max 0 H); [intros; lia|].
  apply (for_range_inv
           (fun y s => painted σ s p (fun X Y => 0 <= X < W /\ 0 <= Y < y) C)).
  { eapply painted_ext; [|apply painted_start]. intros; cbv beta; lia. }
  intros y s Hy Hs.
  rewrite (painted_width _ _ _ _ _ Hs). fold W.
  apply painted_ext
    with (V := fun X Y => (0 <= X < W /\ 0 <= Y < y) \/
                          (Y = y /\ 0 <= X < Z.max 0 W)); [intros; lia|].
  apply (for_range_inv
           (fun x s => painted σ s p
              (fun X Y => (0 <= X < W /\ 0 <= Y < y) \/
                          (Y = y /\ 0 <= X < x)) C)).
  { eapply painted_ext; [|exact Hs]. intros; cbv beta; lia. }
  intros x s' Hx Hs'.
  eapply painted_ext; [|apply painted_write; [exact Hs'|reflexivity]].
  intros; cbv beta; lia.
Qed.

(** X1: after [bmp_plot_clear] every pixel of the resource has the clear
    colour; its dimensions, the pixels read outside it, and every other
    resource are as before. *)
Theorem bmp_plot_clear_fills σ res r g b :
  let σ' := fst (bmp_plot_clear σ res r g b) in
  (forall X Y,
     0 <= X < res_width σ res -> 0 <= Y < res_height σ res ->
     bmp_resource_get_pixel σ' res X Y = (r, g, b)) /\
  (forall X Y,
     ~ (0 <= X < res_width σ res /\ 0 <= Y < res_height σ res) ->
     bmp_resource_get_pixel σ' res X Y = bmp_resource_get_pixel σ res X Y) /\
  res_width σ' res = res_width σ res /\
  res_height σ' res = res_height σ res /\
  length σ' = length σ /\
  (forall l, l <> res -> σ' !! l = σ !! l).
Proof.
  intros σ'.
  destruct (bmp_plot_clear_painted σ res r g b) as [Hlen Hoth Hw Hh Hin Hout].
  fold σ' in Hlen, Hoth, Hw, Hh, Hin, Hout.
  repeat split; try assumption.
  - intros X Y HX HY. apply Hin; [lia|assumption..].
  - intros X Y Hn. apply Hout. tauto.
Qed.

(** X2: [bmp_plot_clear] does what [bmp_plot_rect] does on the rectangle
    [(0, 0, width, height)]: the two leave the same pixels, dimensions and
    other resources. *)
Theorem bmp_plot_clear_as_rect σ res r g b :
  let σc := fst (bmp_plot_clear σ res r g b) in
  let σr := fst (bmp_plot_rect σ res 0 0
                   (res_width σ res) (res_height σ res) r g b) in
  (forall X Y,
     bmp_resource_get_pixel σc res X Y = bmp_resource_get_pixel σr res X Y) /\
  res_width σc res = res_width σr res /\
  res_height σc res = res_height σr res /\
  (forall l, l <> res -> σc !! l = σr !! l).
Proof.
  intros σc σr.
  destruct (bmp_plot_clear_painted σ res r g b) as [_ Hoth Hw Hh Hin Hout].
  destruct (bmp_plot_rect_painted σ res 0 0 (res_width σ res) (res_height σ res) r g b)
    as [_ Hoth' Hw' Hh' Hin' Hout'].
  fold σc in Hoth, Hw, Hh, Hin, Hout. fold σr in Hoth', Hw', Hh', Hin', Hout'.
  repeat split.
  - intros X Y.
    destruct (decide (0 <= X < res_width σ res /\ 0 <= Y < res_height σ res))
      as [Hb|Hb].
    + rewrite Hin, Hin' by lia. reflexivity.
    + rewrite Hout, Hout' by lia. reflexivity.
  - congruence.
  - congruence.
  - intros l Hl. rewrite Hoth, Hoth' by exact Hl. reflexivity.
Qed.

(** X3: a rectangle that is empty or misses the resource changes no pixel. *)
Theorem bmp_plot_rect_outside σ res x y w h r g b :
  w <= 0 \/ h <= 0 \/ x + w <= 0 \/ y + h <= 0 \/
    res_width σ res <= x \/ res_height σ res <= y ->
  forall X Y,
    bmp_resource_get_pixel (fst (bmp_plot_rect σ res x y w h r g b)) res X Y
    = bmp_resource_get_pixel σ res X Y.
Proof.
  intros Hmiss X Y.
  apply (painted_outside _ _ _ _ _ (bmp_plot_rect_painted σ res x y w h r g b)).
  lia.
Qed.

Lemma bmp_plot_rect_outside_witness :
  bmp_resource_get_pixel
    (fst (bmp_plot_rect [plain 4 4 (7, 7, 7)] 0 4 0 3 3 1 2 3)) 0 3 0
  = bmp_resource_get_pixel [plain 4 4 (7, 7, 7)] 0 3 0.
Proof.
  apply (bmp_plot_rect_outside [plain 4 4 (7, 7, 7)] 0%nat 4 0 3 3 1 2 3).
  do 4 right. left. vm_compute. discriminate.
Defined.



(** ** bmp_plot_resource *)

Lemma copy_extent_le w dim : 0 <= dim -> copy_extent w dim <= dim.
Proof.
  intros Hdim. rewrite copy_extent_spec by exact Hdim.
  destruct (w <=? -1); lia.
Qed.

Lemma bmp_plot_resource_length σ p c x y w h rc :
  σ !! c = Some rc ->
  length (fst (bmp_plot_resource σ p c x y w h)) = S (length σ).
Proof.
  intros Hc. unfold bmp_plot_resource, structuredClone. rewrite Hc. cbn [fst].
  destruct (decide (length σ = p)) as [<-|Hne].
  - unfold copy_loop.
    apply (for_range_inv (fun _ s => length s = S (length σ)));
      [rewrite length_app; simpl; lia|].
    intros x1 s _ Hs.
    apply (for_range_inv (fun _ s => length s = S (length σ))); [exact Hs|].
    intros y1 s' _ Hs'. destruct (_ && _); [|exact Hs'].
    destruct (bmp_resource_get_pixel s' (length σ) x1 y1) as [[c0 c1] c2].
    rewrite set_length. exact Hs'.
  - rewrite (painted_length _ _ _ _ _
               (copy_loop_painted (σ ++ [rc]) p (length σ) x y _ _ Hne)).
    rewrite length_app. simpl. lia.
Qed.

(** X5: a copy whose destination rectangle is empty or misses the parent
    changes no pixel of the parent. *)
Theorem bmp_plot_resource_outside σ p c x y w h rp rc :
  σ !! p = Some rp -> σ !! c = Some rc ->
  0 <= width rc -> 0 <= height rc ->
  w = 0 \/ h = 0 \/ width rc = 0 \/ height rc = 0 \/
    width rp <= x \/ height rp <= y \/
    x + width rc <= 0 \/ y + height rc <= 0 ->
  forall X Y,
    bmp_resource_get_pixel (fst (bmp_plot_resource σ p c x y w h)) p X Y
    = bmp_resource_get_pixel σ p X Y.
Proof.
  intros Hp Hc Hw Hh Hmiss X Y.
  destruct (bmp_plot_resource_effect σ p c x y w h rp rc Hp Hc) as (_ & Hout & _).
  apply Hout.
  pose proof (copy_extent_le w (width rc) Hw) as Hwe.
  pose proof (copy_extent_le h (height rc) Hh) as Hhe.
  assert (w = 0 -> copy_extent w (width rc) = 0) as Hw0
    by (intros ->; rewrite copy_extent_spec by exact Hw; simpl; lia).
  assert (h = 0 -> copy_extent h (height rc) = 0) as Hh0
    by (intros ->; rewrite copy_extent_spec by exact Hh; simpl; lia).
  lia.
Qed.

Lemma bmp_plot_resource_outside_witness :
  bmp_resource_get_pixel
    (fst (bmp_plot_resource [plain 4 4 (0, 0, 0); plain 2 2 (9, 9, 9)] 0 1 4 1 (-1) (-1)))
    0 3 1
  = bmp_resource_get_pixel [plain 4 4 (0, 0, 0); plain 2 2 (9, 9, 9)] 0 3 1.
Proof.
  refine (bmp_plot_resource_outside
            [plain 4 4 (0, 0, 0); plain 2 2 (9, 9, 9)] 0%nat 1%nat 4 1 (-1) (-1)
            (plain 4 4 (0, 0, 0)) (plain 2 2 (9, 9, 9)) eq_refl eq_refl _ _ _ 3 1).
  - vm_compute. discriminate.
  - vm_compute. discriminate.
  - do 4 right. left. vm_compute. discriminate.
Defined.

(** X6: copying the same child a second time, with the same arguments,
    changes nothing more (parent and child being different objects). *)
Theorem bmp_plot_resource_again σ p c x y w h rp rc :
  σ !! p = Some rp -> σ !! c = Some rc -> p <> c ->
  let σ1 := fst (bmp_plot_resource σ p c x y w h) in
  let σ2 := fst (bmp_plot_resource σ1 p c x y w h) in
  (forall X Y,
     bmp_resource_get_pixel σ2 p X Y = bmp_resource_get_pixel σ1 p X Y) /\
  res_width σ2 p = res_width σ1 p /\ res_height σ2 p = res_height σ1 p /\
  (forall X Y,
     bmp_resource_get_pixel σ2 c X Y = bmp_resource_get_pixel σ c X Y).
Proof.
  intros Hp Hc Hpc σ1 σ2.
  destruct (bmp_plot_resource_effect σ p c x y w h rp rc Hp Hc)
    as (Hin & Hout & Hw & Hh & Hoth).
  fold σ1 in Hin, Hout, Hw, Hh, Hoth.
  assert (c < length σ)%nat as Hclen by (eapply lookup_lt_Some; exact Hc).
  assert (σ1 !! c = Some rc) as Hc1 by (rewrite Hoth by (congruence || lia); exact Hc).
  assert (exists rp1, σ1 !! p = Some rp1) as [rp1 Hp1].
  { apply lookup_lt_is_Some.
    unfold σ1. rewrite (bmp_plot_resource_length σ p c x y w h rc Hc).
    apply lookup_lt_Some in Hp. lia. }
  assert (width rp1 = width rp) as Ew
    by (unfold res_width in Hw; rewrite Hp1 in Hw; exact Hw).
  assert (height rp1 = height rp) as Eh
    by (unfold res_height in Hh; rewrite Hp1 in Hh; exact Hh).
  destruct (bmp_plot_resource_effect σ1 p c x y w h rp1 rc Hp1 Hc1)
    as (Hin' & Hout' & Hw' & Hh' & Hoth').
  fold σ2 in Hin', Hout', Hw', Hh', Hoth'.
  assert (forall X Y,
            bmp_resource_get_pixel σ1 c X Y = bmp_resource_get_pixel σ c X Y) as Hsrc.
  { intros X Y. unfold bmp_resource_get_pixel. rewrite Hc1, Hc. reflexivity. }
  repeat split.
  - intros X Y.
    destruct (decide (0 <= X - x < copy_extent w (width rc) /\
                      0 <= Y - y < copy_extent h (height rc) /\
                      0 <= X < width rp /\ 0 <= Y < height rp)) as [Hb|Hb].
    + rewrite Hin' by lia. rewrite Hsrc. symmetry. apply Hin; lia.
    + apply Hout'. rewrite Ew, Eh. exact Hb.
  - rewrite Hw', Hw. exact Ew.
  - rewrite Hh', Hh. exact Eh.
  - intros X Y. rewrite <- Hsrc. unfold bmp_resource_get_pixel.
    rewrite Hoth'; [reflexivity|congruence|].
    apply lookup_lt_Some in Hc1. exact Hc1.
Qed.

Lemma bmp_plot_resource_again_witness :
  bmp_resource_get_pixel
    (fst (bmp_plot_resource
            (fst (bmp_plot_resource
                    [plain 4 4 (0, 0, 0); plain 2 2 (9, 9, 9)] 0 1 1 1 (-1) (-1)))
            0 1 1 1 (-1) (-1))) 0 2 2
  = bmp_resource_get_pixel
      (fst (bmp_plot_resource
              [plain 4 4 (0, 0, 0); plain 2 2 (9, 9, 9)] 0 1 1 1 (-1) (-1))) 0 2 2.
Proof.
  refine (proj1 (bmp_plot_resource_again
            [plain 4 4 (0, 0, 0); plain 2 2 (9, 9, 9)] 0%nat 1%nat 1 1 (-1) (-1)
            (plain 4 4 (0, 0, 0)) (plain 2 2 (9, 9, 9)) eq_refl eq_refl _) 2 2).
  discriminate.
Defined.

(** ** bmp_plot_text: what it leaves alone *)

Lemma only_changes_refl σ p V : only_changes σ σ p V.
Proof. constructor; reflexivity. Qed.

Lemma only_changes_trans σ0 σ1 σ2 p V :
  only_changes σ0 σ1 p V -> only_changes σ1 σ2 p V -> only_changes σ0 σ2 p V.
Proof.
  intros [Hl Ho Hw Hh Hp] [Hl' Ho' Hw' Hh' Hp']. constructor.
  - congruence.
  - intros l Hne. rewrite Ho', Ho by exact Hne. reflexivity.
  - intros l. rewrite Hw', Hw. reflexivity.
  - intros l. rewrite Hh', Hh. reflexivity.
  - intros X Y HV. rewrite Hp', Hp by exact HV. reflexivity.
Qed.

Lemma only_changes_weaken σ0 σ p (V V' : Z -> Z -> Prop) :
  (forall X Y, V X Y -> V' X Y) -> only_changes σ0 σ p V -> only_changes σ0 σ p V'.
Proof.
  intros HV [Hl Ho Hw Hh Hp]. constructor; try assumption.
  intros X Y HV'. apply Hp. intros H. apply HV', HV, H.
Qed.

Lemma only_changes_set σ p x y r g b :
  only_changes σ (bmp_resource_set_pixel σ p x y r g b) p
    (fun X Y => X = x /\ Y = y).
Proof.
  constructor.
  - apply set_length.
  - intros l Hne. apply set_lookup_ne. congruence.
  - intros l. apply set_res_width.
  - intros l. apply set_res_height.
  - intros X Y Hn. apply get_set_other.
    destruct (decide (X = x)); [|tauto]. destruct (decide (Y = y)); tauto.
Qed.

Lemma glyph_pixel_only_changes p c k cxo xo yo ly lx σ :
  only_changes σ (glyph_pixel p c k cxo xo yo ly lx σ) p
    (fun X Y => X = xo + lx /\ Y = yo + ly).
Proof.
  unfold glyph_pixel.
  destruct (text_pixel _ k) as [[[c0 c1] c2]|]; [|apply only_changes_refl].
  destruct (_ && _); [apply only_changes_set|apply only_changes_refl].
Qed.

(** A glyph changes at most the pixels of its cell. *)
Lemma plot_glyph_only_changes p c k fw fh cxo xo yo σ :
  only_changes σ (plot_glyph p c k fw fh cxo xo yo σ) p
    (fun X Y => xo <= X < xo + fw /\ yo <= Y < yo + fh).
Proof.
  unfold plot_glyph.
  set (V := fun X Y => xo <= X < xo + fw /\ yo <= Y < yo + fh).
  apply (for_range_inv (fun _ s => only_changes σ s p V));
    [apply only_changes_refl|].
  intros ly s Hly Hs.
  apply (for_range_inv (fun _ s => only_changes σ s p V)); [exact Hs|].
  intros lx s' Hlx Hs'.
  eapply only_changes_trans; [exact Hs'|].
  eapply only_changes_weaken; [|apply glyph_pixel_only_changes].
  unfold V. intros X Y [-> ->]. lia.
Qed.

Lemma text_loop_only_changes p c k wrap fw fh fc x codes :
  0 <= fw -> 0 <= fh ->
  forall xo yo σ,
    x <= xo ->
    only_changes σ (text_loop p c k wrap fw fh fc x codes xo yo σ) p
      (fun X Y => 0 < fw /\ 0 < fh /\ x <= X /\ yo <= Y).
Proof.
  intros Hfw Hfh. induction codes as [|code rest IH]; intros xo yo σ Hxo.
  { apply only_changes_refl. }
  cbn [text_loop]. destruct (is_newline code).
  - eapply only_changes_weaken; [|apply IH; lia]. cbv beta. intros; lia.
  - destruct (wrap_cursor wrap fw fh x (res_width σ p) (xo, yo)) as [xo' yo'] eqn:Hc.
    assert (x <= xo' /\ yo <= yo') as [Hx' Hy'].
    { unfold wrap_cursor in Hc. destruct (_ && _); injection Hc as <- <-; lia. }
    apply only_changes_trans
      with (σ1 := plot_glyph p c k fw fh (glyph_column fw fc code) xo' yo' σ).
    + eapply only_changes_weaken; [|apply plot_glyph_only_changes].
      cbv beta. intros; lia.
    + eapply only_changes_weaken; [|apply IH; lia]. cbv beta. intros; lia.
Qed.

(** X7: [bmp_plot_text] draws only at and after its anchor: every pixel of
    the parent left of [x] or above [y] is as before, and so are all
    dimensions and all resources but the parent (the atlas among them, when
    it is another object). *)
Theorem bmp_plot_text_frame σ p c x y text wrap k σ' result :
  0 <= res_width σ c -> 0 <= res_height σ c ->
  bmp_plot_text σ p c x y text wrap k = Some (σ', result) ->
  (forall X Y,
     X < x \/ Y < y ->
     bmp_resource_get_pixel σ' p X Y = bmp_resource_get_pixel σ p X Y) /\
  (forall l, l <> p -> σ' !! l = σ !! l) /\
  (forall l, res_width σ' l = res_width σ l /\ res_height σ' l = res_height σ l) /\
  length σ' = length σ.
Proof.
  intros Hw Hh Hrun. unfold bmp_plot_text in Hrun.
  destruct (res_width σ c mod 96 =? 0); [|discriminate].
  injection Hrun as <- _.
  destruct (text_loop_only_changes p c k wrap (res_width σ c / 96) (res_height σ c)
              (res_width σ c / (res_width σ c / 96)) x (char_codes text)
              ltac:(apply Z.div_pos; lia) Hh x y σ ltac:(lia))
    as [Hl Ho Hwd Hhd Hp].
  repeat split; try assumption.
  - intros X Y Hout. apply Hp. lia.
  - apply Hwd.
  - apply Hhd.
Qed.

Lemma bmp_plot_text_frame_witness :
  bmp_resource_get_pixel
    (text_loop 0 1 (TextColors 1 2 3 (-1) (-1) (-1)) true 2 3 96 2
       (char_codes "A") 2 1 [plain 8 8 (0, 0, 0); plain 192 3 (255, 255, 255)])
    0 1 1
  = bmp_resource_get_pixel [plain 8 8 (0, 0, 0); plain 192 3 (255, 255, 255)] 0 1 1.
Proof.
  refine (proj1 (bmp_plot_text_frame
            [plain 8 8 (0, 0, 0); plain 192 3 (255, 255, 255)] 0%nat 1%nat 2 1
            "A" true (TextColors 1 2 3 (-1) (-1) (-1)) _ true _ _ eq_refl) 1 1 _).
  - vm_compute. discriminate.
  - vm_compute. discriminate.
  - left. lia.
Defined.

(** X8: on an atlas without width or without height [bmp_plot_text] draws
    nothing: the glyph loops are empty, no pixel of any resource changes, and
    the call returns [true]. *)
Theorem bmp_plot_text_empty_atlas σ p c x y text wrap k :
  0 <= res_width σ c -> 0 <= res_height σ c ->
  res_width σ c mod 96 = 0 ->
  res_width σ c = 0 \/ res_height σ c = 0 ->
  exists σ',
    bmp_plot_text σ p c x y text wrap k = Some (σ', true) /\
    forall l X Y,
      bmp_resource_get_pixel σ' l X Y = bmp_resource_get_pixel σ l X Y.
Proof.
  intros Hw Hh Hmod Hempty. unfold bmp_plot_text.
  rewrite (proj2 (Z.eqb_eq _ _) Hmod). eexists. split; [reflexivity|].
  assert (res_width σ c / 96 = 0 \/ res_height σ c = 0) as Hz.
  { destruct Hempty as [E|E]; [left; rewrite E; reflexivity|right; exact E]. }
  destruct (text_loop_only_changes p c k wrap (res_width σ c / 96) (res_height σ c)
              (res_width σ c / (res_width σ c / 96)) x (char_codes text)
              ltac:(apply Z.div_pos; lia) Hh x y σ ltac:(lia))
    as [_ Ho _ _ Hp].
  intros l X Y. destruct (decide (l = p)) as [->|Hne].
  - apply Hp. lia.
  - unfold bmp_resource_get_pixel. rewrite Ho by exact Hne. reflexivity.
Qed.

Lemma bmp_plot_text_empty_atlas_witness :
  exists σ',
    bmp_plot_text [plain 4 4 (7, 7, 7); plain 0 5 (255, 255, 255)] 0 1 0 0
      "AB" true (TextColors 1 2 3 (-1) (-1) (-1)) = Some (σ', true) /\
    forall l X Y,
      bmp_resource_get_pixel σ' l X Y =
      bmp_resource_get_pixel [plain 4 4 (7, 7, 7); plain 0 5 (255, 255, 255)] l X Y.
Proof.
  apply (bmp_plot_text_empty_atlas
           [plain 4 4 (7, 7, 7); plain 0 5 (255, 255, 255)] 0%nat 1%nat 0 0
           "AB" true (TextColors 1 2 3 (-1) (-1) (-1))).
  - vm_compute. discriminate.
  - vm_compute. discriminate.
  - reflexivity.
  - left. reflexivity.
Defined.

(** ** bmp_plot_text: the layout *)

Lemma text_glyphs_grid fw fh fc x y width_p codes :
  forall line col,
    text_glyphs false fw fh fc x width_p codes (x + col * fw) (y + line * fh)
    = grid_glyphs fw fh fc x y codes line col.
Proof.
  induction codes as [|code rest IH]; intros line col; [reflexivity|].
  cbn [text_glyphs grid_glyphs]. destruct (is_newline code).
  - rewrite <- IH. replace (x + 0 * fw) with x by lia.
    replace (y + (line + 1) * fh) with (y + line * fh + fh) by lia. reflexivity.
  - unfold wrap_cursor. cbn [andb]. f_equal. rewrite <- IH.
    replace (x + (col + 1) * fw) with (x + col * fw + fw) by lia. reflexivity.
Qed.

Lemma grid_glyphs_row fw fh fc x y codes :
  Forall (fun code => is_newline code = false) codes ->
  forall line col (i : nat) code,
    codes !! i = Some code ->
    grid_glyphs fw fh fc x y codes line col !! i
    = Some (glyph_column fw fc code, x + (col + Z.of_nat i) * fw, y + line * fh).
Proof.
  induction 1 as [|c0 rest Hc0 Hrest IH]; intros line col i code Hi;
    [discriminate|].
  cbn [grid_glyphs]. rewrite Hc0. destruct i as [|i].
  - injection Hi as ->. cbn [lookup list_lookup].
    replace (col + Z.of_nat 0) with col by lia. reflexivity.
  - change ((c0 :: rest) !! S i) with (rest !! i) in Hi.
    change ((?g :: ?l) !! S i) with (l !! i).
    rewrite (IH line (col + 1) i code Hi).
    replace (col + Z.of_nat (S i)) with (col + 1 + Z.of_nat i) by lia. reflexivity.
Qed.

(** X9: without word wrap the layout is a grid: the glyph of the [col]-th
    character of the [line]-th line (lines ending at newlines) is drawn at
    [(x + col * font_width, y + line * font_height)]; in a text without
    newline the glyph of character [i] is at [(x + i * font_width, y)]. *)
Theorem bmp_plot_text_grid σ p c x y text k :
  res_width σ c mod 96 = 0 ->
  let fw := res_width σ c / 96 in
  let fh := res_height σ c in
  let fc := res_width σ c / fw in
  bmp_plot_text σ p c x y text false k
  = Some (fold_left
            (fun s g => plot_glyph p c k fw fh (fst (fst g)) (snd (fst g)) (snd g) s)
            (grid_glyphs fw fh fc x y (char_codes text) 0 0) σ, true) /\
  (Forall (fun code => is_newline code = false) (char_codes text) ->
   forall (i : nat) code,
     char_codes text !! i = Some code ->
     grid_glyphs fw fh fc x y (char_codes text) 0 0 !! i
     = Some (glyph_column fw fc code, x + Z.of_nat i * fw, y)).
Proof.
  intros Hatlas fw fh fc. split.
  - unfold bmp_plot_text. rewrite (proj2 (Z.eqb_eq _ _) Hatlas).
    fold fw fh fc. rewrite text_loop_glyphs.
    rewrite <- (text_glyphs_grid fw fh fc x y (res_width σ p) (char_codes text) 0 0).
    replace (x + 0 * fw) with x by lia. replace (y + 0 * fh) with y by lia.
    reflexivity.
  - intros Hnl i code Hi.
    rewrite (grid_glyphs_row fw fh fc x y _ Hnl 0 0 i code Hi).
    replace (y + 0 * fh) with y by lia. reflexivity.
Qed.

Lemma bmp_plot_text_grid_witness :
  grid_glyphs 2 3 96 4 5 (char_codes "AB") 0 0 !! 1%nat = Some (68, 4 + 1 * 2, 5).
Proof.
  refine (proj2 (bmp_plot_text_grid
            [plain 8 8 (0, 0, 0); plain 192 3 (255, 255, 255)] 0%nat 1%nat 4 5
            "AB" (TextColors 1 2 3 (-1) (-1) (-1)) eq_refl) _ 1%nat 66 eq_refl).
  repeat constructor.
Defined.

Lemma text_glyphs_fit fw fh fc x width_p codes :
  0 <= fw ->
  forall xo yo,
    x <= xo -> xo + Z.of_nat (length codes) * fw <= width_p ->
    text_glyphs true fw fh fc x width_p codes xo yo
    = text_glyphs false fw fh fc x width_p codes xo yo.
Proof.
  intros Hfw. induction codes as [|code rest IH]; intros xo yo Hxo Hfit;
    [reflexivity|].
  cbn [length] in Hfit. rewrite Nat2Z.inj_succ in Hfit.
  assert (0 <= Z.of_nat (length rest) * fw) by (apply Z.mul_nonneg_nonneg; lia).
  cbn [text_glyphs]. destruct (is_newline code).
  - apply IH; lia.
  - unfold wrap_cursor. cbn [andb].
    destruct (Z.ltb_spec width_p (xo + fw)); [lia|].
    f_equal. apply IH; lia.
Qed.

Lemma char_codes_length text : length (char_codes text) = String.length text.
Proof.
  unfold char_codes. rewrite length_map.
  induction text as [|a text IH]; [reflexivity|]. cbn. rewrite IH. reflexivity.
Qed.



Lemma text_glyphs_inside fw fh fc x width_p codes :
  0 <= fw -> x + fw <= width_p ->
  forall xo yo,
    x <= xo ->
    Forall (fun g => x <= snd (fst g) /\ snd (fst g) + fw <= width_p)
      (text_glyphs true fw fh fc x width_p codes xo yo).
Proof.
  intros Hfw Hone. induction codes as [|code rest IH]; intros xo yo Hxo;
    [constructor|].
  cbn [text_glyphs]. destruct (is_newline code); [apply IH; lia|].
  unfold wrap_cursor. cbn [andb].
  destruct (Z.ltb_spec width_p (xo + fw)).
  - constructor; [cbn; lia|apply IH; lia].
  - constructor; [cbn; lia|apply IH; lia].
Qed.

(** X11: with word wrap, if one glyph fits between the anchor and the
    parent's right edge, every glyph is drawn wholly left of that edge and
    not left of the anchor: [x <= x_offset] and
    [x_offset + font_width <= width]. *)
Theorem bmp_plot_text_wrapped_inside σ p c x y text k :
  res_width σ c mod 96 = 0 -> 0 <= res_width σ c ->
  let fw := res_width σ c / 96 in
  let fh := res_height σ c in
  let fc := res_width σ c / fw in
  x + fw <= res_width σ p ->
  let glyphs := text_glyphs true fw fh fc x (res_width σ p) (char_codes text) x y in
  bmp_plot_text σ p c x y text true k
  = Some (fold_left
            (fun s g => plot_glyph p c k fw fh (fst (fst g)) (snd (fst g)) (snd g) s)
            glyphs σ, true) /\
  Forall (fun g => x <= snd (fst g) /\ snd (fst g) + fw <= res_width σ p) glyphs.
Proof.
  intros Hatlas Hw fw fh fc Hone glyphs. split.
  - unfold bmp_plot_text. rewrite (proj2 (Z.eqb_eq _ _) Hatlas).
    fold fw fh fc. rewrite text_loop_glyphs. reflexivity.
  - assert (0 <= fw) as Hfw by (apply Z.div_pos; lia).
    apply (text_glyphs_inside fw fh fc x (res_width σ p) (char_codes text)
             Hfw Hone x y).
    lia.
Qed.

Lemma bmp_plot_text_wrapped_inside_witness :
  Forall (fun g => 1 <= snd (fst g) /\ snd (fst g) + 2 <= 4)
    (text_glyphs true 2 3 96 1 4 (char_codes "ABC") 1 0).
Proof.
  refine (proj2 (bmp_plot_text_wrapped_inside
            [plain 4 8 (0, 0, 0); plain 192 3 (255, 255, 255)] 0%nat 1%nat 1 0
            "ABC" (TextColors 1 2 3 (-1) (-1) (-1)) eq_refl _ _)).
  - vm_compute. discriminate.
  - vm_compute. discriminate.
Defined.

Lemma text_loop_same_glyph p c k wrap fw fh fc x codes1 codes2 :
  Forall2 same_glyph codes1 codes2 ->
  forall xo yo σ,
    text_loop p c k wrap fw fh fc x codes1 xo yo σ
    = text_loop p c k wrap fw fh fc x codes2 xo yo σ.
Proof.
  induction 1 as [|a b rest1 rest2 Hab Hrest IH]; intros xo yo σ; [reflexivity|].
  destruct Hab as [->|[Ha Hb]].
  - cbn [text_loop]. destruct (is_newline b); [apply IH|].
    destruct (wrap_cursor _ _ _ _ _ _). apply IH.
  - cbn [text_loop]. unfold unprintable in Ha, Hb.
    apply andb_true_iff in Ha as [Hna Hra], Hb as [Hnb Hrb].
    apply negb_true_iff in Hna, Hnb. rewrite Hna, Hnb.
    unfold glyph_column. rewrite Hra, Hrb.
    destruct (wrap_cursor _ _ _ _ _ _). apply IH.
Qed.

(** X12: every character outside 0x20..0x7E that is not a newline is drawn
    as the glyph of the atlas' last cell, at column [95 * font_width]: two
    texts that differ only in such characters give the same result. *)
Theorem bmp_plot_text_unprintable σ p c x y text1 text2 wrap k :
  Forall2 same_glyph (char_codes text1) (char_codes text2) ->
  bmp_plot_text σ p c x y text1 wrap k = bmp_plot_text σ p c x y text2 wrap k /\
  (forall code,
     unprintable code = true ->
     res_width σ c mod 96 = 0 -> 0 < res_width σ c ->
     glyph_column (res_width σ c / 96)
       (res_width σ c / (res_width σ c / 96)) code
     = 95 * (res_width σ c / 96) /\
     96 * (res_width σ c / 96) = res_width σ c).
Proof.
  intros Hsame. split.
  - unfold bmp_plot_text. destruct (res_width σ c mod 96 =? 0); [|reflexivity].
    rewrite (text_loop_same_glyph _ _ _ _ _ _ _ _ _ _ Hsame). reflexivity.
  - intros code Hcode Hmod Hpos.
    assert (res_width σ c = 96 * (res_width σ c / 96)) as Hw
      by (apply Z.div_exact in Hmod; lia).
    split; [|lia].
    unfold unprintable in Hcode. apply andb_true_iff in Hcode as [_ Hr].
    unfold glyph_column. rewrite Hr.
    replace (res_width σ c / (res_width σ c / 96)) with 96; [lia|].
    rewrite Hw at 1. symmetry. apply Z.div_mul. lia.
Qed.

Lemma bmp_plot_text_unprintable_witness :
  bmp_plot_text [plain 8 8 (0, 0, 0); plain 192 3 (255, 255, 255)] 0 1 0 0
    (String "009" (String "A" EmptyString)) true (TextColors 1 2 3 (-1) (-1) (-1))
  = bmp_plot_text [plain 8 8 (0, 0, 0); plain 192 3 (255, 255, 255)] 0 1 0 0
      (String "127" (String "A" EmptyString)) true (TextColors 1 2 3 (-1) (-1) (-1)).
Proof.
  refine (proj1 (bmp_plot_text_unprintable _ _ _ _ _ _ _ _ _ _)).
  change (Forall2 same_glyph [9; 65] [127; 65]).
  constructor; [right; split; reflexivity|].
  constructor; [left; reflexivity|]. constructor.
Defined.

(** ** bmp_plot_line and the outliners: the calls they make *)

Lemma SFeqb_refl_number a : a <> S754_nan -> SFeqb a a = true.
Proof.
  unfold SFeqb. destruct a as [s|s| |s m e]; simpl; intros Hn;
    [reflexivity|destruct s; reflexivity|congruence|].
  destruct s; rewrite Z.compare_refl, Pos.compare_cont_refl; reflexivity.
Qed.

Lemma SFltb_number a b : SFltb a b = true -> SFeqb a a = true.
Proof.
  intros H. apply SFeqb_refl_number. intros ->. discriminate.
Qed.

Lemma SFeqb_number a b : SFeqb a b = true -> SFeqb a a = true.
Proof.
  intros H. apply SFeqb_refl_number. intros ->. discriminate.
Qed.

Lemma line_loop_guarded resource l ax ay r g b fuel :
  forall i x y calls,
    line_loop fuel resource l ax ay r g b i x y = Some calls ->
    Forall (guarded_call resource r g b) calls.
Proof.
  induction fuel as [|fuel IH]; intros i x y calls H; [discriminate|].
  cbn [line_loop] in H. destruct (i <? l)%float.
  - destruct (line_loop fuel resource l ax ay r g b (i + 1) (x + ax) (y + ay))
      as [calls'|] eqn:Hrec; [|discriminate].
    apply IH in Hrec. injection H as <-.
    destruct (x <? target_width resource)%float eqn:Hx; [|exact Hrec].
    destruct (y <? target_height resource)%float eqn:Hy; [|exact Hrec].
    cbn [andb]. constructor; [|exact Hrec].
    unfold guarded_call. cbn [call_x call_y call_r call_g call_b].
    repeat split; try assumption.
    + rewrite FloatAxioms.eqb_spec. rewrite ltb_spec in Hx.
      eapply SFltb_number, Hx.
    + rewrite FloatAxioms.eqb_spec. rewrite ltb_spec in Hy.
      eapply SFltb_number, Hy.
  - injection H as <-. constructor.
Qed.

Lemma plot_outline_guarded fuel resource x y w h r g b p points :
  forall calls,
    plot_outline fuel resource points x y w h r g b p = Some calls ->
    Forall (guarded_call resource r g b) calls.
Proof.
  induction points as [|last [|curr rest] IH]; intros calls H;
    [injection H as <-; constructor..|].
  rewrite plot_outline_cons in H.
  destruct (bmp_plot_line fuel resource _ _ _ _ r g b p) as [[calls1 ?]|] eqn:Hline;
    [|discriminate].
  destruct (plot_outline fuel resource (curr :: rest) x y w h r g b p)
    as [calls2|] eqn:Hrest; [|discriminate].
  injection H as <-. apply Forall_app. split; [|apply IH; reflexivity].
  rewrite bmp_plot_line_unfold in Hline. cbv zeta in Hline.
  destruct (line_loop fuel resource _ _ _ r g b 0 _ _) as [calls'|] eqn:Hrun;
    [|discriminate].
  injection Hline as <- _. eapply line_loop_guarded, Hrun.
Qed.

(** X13: [bmp_plot_line], and so every outliner, calls the pixel setter only
    with coordinates strictly below the resource's width and height, hence
    never with a NaN coordinate, and always with the colour it was given.
    (Nothing bounds the coordinates from below: negative ones are passed
    on.) *)
Theorem plot_calls_guarded :
  (forall fuel resource x1 y1 x2 y2 r g b p calls result,
     bmp_plot_line fuel resource x1 y1 x2 y2 r g b p = Some (calls, result) ->
     Forall (guarded_call resource r g b) calls) /\
  (forall points fuel resource x y w h r g b p calls result,
     plot_shape points fuel resource x y w h r g b p = Some (calls, result) ->
     Forall (guarded_call resource r g b) calls) /\
  (exists calls,
     bmp_plot_line 8 (LineTarget 10 10) (-2) 1 2 1 7 7 7 1 = Some (calls, true) /\
     nth_error calls 0%nat = Some (PixelCall (-2) 1 7 7 7)).
Proof.
  split; [|split].
  - intros fuel resource x1 y1 x2 y2 r g b p calls result H.
    rewrite bmp_plot_line_unfold in H. cbv zeta in H.
    destruct (line_loop fuel resource _ _ _ r g b 0 x1 y1) as [calls'|] eqn:Hrun;
      [|discriminate].
    injection H as <- _. eapply line_loop_guarded, Hrun.
  - intros points fuel resource x y w h r g b p calls result H.
    unfold plot_shape in H.
    destruct (plot_outline fuel resource points x y w h r g b p) as [calls'|] eqn:Hrun;
      [|discriminate].
    injection H as <- _. eapply plot_outline_guarded, Hrun.
  - eexists. split; vm_compute; reflexivity.
Qed.

Lemma plot_calls_guarded_witness :
  Forall (guarded_call (LineTarget 10 10) 7 7 7)
    [PixelCall 0 0 7 7 7; PixelCall 1 0 7 7 7; PixelCall 2 0 7 7 7;
     PixelCall 3 0 7 7 7].
Proof.
  apply (proj1 plot_calls_guarded 5%nat (LineTarget 10 10) 0 0 4 0 7 7 7 1
           _ true)%float.
  vm_compute. reflexivity.
Defined.

(** ** bmp_plot_line: horizontal and vertical segments *)

Lemma SFltb_zero_positive l :
  SFltb (S754_zero false) l = true ->
  l = S754_infinity false \/ exists m e, l = S754_finite false m e.
Proof.
  unfold SFltb. destruct l as [s|[]| |[] m e]; simpl; try discriminate; eauto.
Qed.

(** When the loop runs at all and one coordinate does not change between the
    end points, the step along that coordinate is a zero. *)
Lemma step_zero d d' cp :
  zero_or_nan d = true ->
  SFltb (S754_zero false)
    (SFmul prec emax
       (SFsqrt prec emax
          (SFadd prec emax (SFmul prec emax d' d') (SFmul prec emax d d))) cp)
    = true ->
  forall l,
    SFltb (S754_zero false) l = true ->
    exists s, SFdiv prec emax d l = S754_zero s.
Proof.
  intros Hd Hrun l Hl.
  destruct d as [s| | |]; try discriminate.
  - apply SFltb_zero_positive in Hl as [->|(m & e & ->)]; simpl; eauto.
  - exfalso. simpl in Hrun.
    destruct (SFmul prec emax d' d'); simpl in Hrun; discriminate.
Qed.

Lemma step_zero' d d' cp :
  zero_or_nan d = true ->
  SFltb (S754_zero false)
    (SFmul prec emax
       (SFsqrt prec emax
          (SFadd prec emax (SFmul prec emax d d) (SFmul prec emax d' d'))) cp)
    = true ->
  forall l,
    SFltb (S754_zero false) l = true ->
    exists s, SFdiv prec emax d l = S754_zero s.
Proof.
  intros Hd Hrun l Hl.
  destruct d as [s| | |]; try discriminate.
  apply SFltb_zero_positive in Hl as [->|(m & e & ->)]; simpl; eauto.
Qed.

Lemma SFadd_zero_eqb a b s :
  SFeqb a b = true -> SFeqb (SFadd prec emax a (S754_zero s)) b = true.
Proof.
  unfold SFeqb.
  destruct a as [sa|sa| |sa ma ea]; simpl; try (intros H; exact H).
  destruct b as [sb|[]| |[] mb eb]; simpl; try discriminate;
    intros _; destruct sa, s; reflexivity.
Qed.

Lemma line_loop_row resource l ax ay r g b y0 fuel :
  (exists s, Prim2SF ay = S754_zero s) ->
  forall i x y calls,
    (y =? y0)%float = true ->
    line_loop fuel resource l ax ay r g b i x y = Some calls ->
    Forall (fun c => (call_y c =? y0)%float = true) calls.
Proof.
  intros [s Hs]. induction fuel as [|fuel IH]; intros i x y calls Hy H;
    [discriminate|].
  cbn [line_loop] in H. destruct (i <? l)%float; [|injection H as <-; constructor].
  destruct (line_loop fuel resource l ax ay r g b (i + 1) (x + ax) (y + ay))
    as [calls'|] eqn:Hrec; [|discriminate].
  apply IH in Hrec.
  - injection H as <-. destruct (_ && _); [|exact Hrec].
    constructor; [exact Hy|exact Hrec].
  - rewrite FloatAxioms.eqb_spec in Hy |- *. rewrite add_spec, Hs.
    apply SFadd_zero_eqb, Hy.
Qed.

Lemma line_loop_column resource l ax ay r g b x0 fuel :
  (exists s, Prim2SF ax = S754_zero s) ->
  forall i x y calls,
    (x =? x0)%float = true ->
    line_loop fuel resource l ax ay r g b i x y = Some calls ->
    Forall (fun c => (call_x c =? x0)%float = true) calls.
Proof.
  intros [s Hs]. induction fuel as [|fuel IH]; intros i x y calls Hx H;
    [discriminate|].
  cbn [line_loop] in H. destruct (i <? l)%float; [|injection H as <-; constructor].
  destruct (line_loop fuel resource l ax ay r g b (i + 1) (x + ax) (y + ay))
    as [calls'|] eqn:Hrec; [|discriminate].
  apply IH in Hrec.
  - injection H as <-. destruct (_ && _); [|exact Hrec].
    constructor; [exact Hx|exact Hrec].
  - rewrite FloatAxioms.eqb_spec in Hx |- *. rewrite add_spec, Hs.
    apply SFadd_zero_eqb, Hx.
Qed.

(** X14: a horizontal segment ([y1 == y2]) is drawn on its row, every call
    of the pixel setter having [y == y1], and a vertical one ([x1 == x2]) on
    its column: the rounding of the steps never moves the unchanged
    coordinate. *)
Theorem bmp_plot_line_axis :
  (forall fuel resource x1 y1 x2 y2 r g b p calls result,
     (y1 =? y2)%float = true ->
     bmp_plot_line fuel resource x1 y1 x2 y2 r g b p = Some (calls, result) ->
     Forall (fun c => (call_y c =? y1)%float = true) calls) /\
  (forall fuel resource x1 y1 x2 y2 r g b p calls result,
     (x1 =? x2)%float = true ->
     bmp_plot_line fuel resource x1 y1 x2 y2 r g b p = Some (calls, result) ->
     Forall (fun c => (call_x c =? x1)%float = true) calls).
Proof.
  split.
  - intros fuel resource x1 y1 x2 y2 r g b p calls result Hy H.
    rewrite bmp_plot_line_unfold in H. cbv zeta in H.
    destruct (line_loop fuel resource _ _ _ r g b 0 x1 y1) as [calls'|] eqn:Hrun;
      [|discriminate].
    injection H as <- _.
    destruct (0 <? line_length x1 y1 x2 y2 p)%float eqn:Hl.
    + eapply line_loop_row; [|exact (eq_trans
          (FloatAxioms.eqb_spec y1 y1)
          (SFeqb_number _ _ (eq_trans (eq_sym (FloatAxioms.eqb_spec y1 y2)) Hy)))
        |exact Hrun].
      rewrite ltb_spec in Hl. change (Prim2SF 0) with (S754_zero false) in Hl.
      rewrite div_spec.
      eapply (step_zero (Prim2SF (y2 - y1)) (Prim2SF (x2 - x1))
                (Prim2SF (clamp_double p one_tenth 2))); [| |exact Hl].
      * rewrite sub_spec. apply SFsub_equal.
        rewrite <- FloatAxioms.eqb_spec. exact Hy.
      * unfold line_length in Hl.
        rewrite mul_spec, sqrt_spec, add_spec, !mul_spec in Hl. exact Hl.
    + destruct fuel as [|fuel]; [discriminate|].
      cbn [line_loop] in Hrun. rewrite Hl in Hrun. injection Hrun as <-.
      constructor.
  - intros fuel resource x1 y1 x2 y2 r g b p calls result Hx H.
    rewrite bmp_plot_line_unfold in H. cbv zeta in H.
    destruct (line_loop fuel resource _ _ _ r g b 0 x1 y1) as [calls'|] eqn:Hrun;
      [|discriminate].
    injection H as <- _.
    destruct (0 <? line_length x1 y1 x2 y2 p)%float eqn:Hl.
    + eapply line_loop_column; [|exact (eq_trans
          (FloatAxioms.eqb_spec x1 x1)
          (SFeqb_number _ _ (eq_trans (eq_sym (FloatAxioms.eqb_spec x1 x2)) Hx)))
        |exact Hrun].
      rewrite ltb_spec in Hl. change (Prim2SF 0) with (S754_zero false) in Hl.
      rewrite div_spec.
      eapply (step_zero' (Prim2SF (x2 - x1)) (Prim2SF (y2 - y1))
                (Prim2SF (clamp_double p one_tenth 2))); [| |exact Hl].
      * rewrite sub_spec. apply SFsub_equal.
        rewrite <- FloatAxioms.eqb_spec. exact Hx.
      * unfold line_length in Hl.
        rewrite mul_spec, sqrt_spec, add_spec, !mul_spec in Hl. exact Hl.
    + destruct fuel as [|fuel]; [discriminate|].
      cbn [line_loop] in Hrun. rewrite Hl in Hrun. injection Hrun as <-.
      constructor.
Qed.

Lemma bmp_plot_line_axis_witness :
  Forall (fun c => (call_y c =? 0.5)%float = true)
    [PixelCall 0 0.5 7 7 7; PixelCall 0.625 0.5 7 7 7;
     PixelCall 1.25 0.5 7 7 7; PixelCall 1.875 0.5 7 7 7]%float.
Proof.
  apply (proj1 bmp_plot_line_axis 8%nat (LineTarget 10 10) 0 0.5 2.5 0.5 7 7 7 0x1.999999999999ap+0
           _ true)%float.
  - reflexivity.
  - vm_compute. reflexivity.
Defined.

(** ** The outliners: a shape of no extent *)

Lemma line_degenerate_run fuel resource x1 y1 x2 y2 r g b p :
  (x1 =? x2)%float = true -> (y1 =? y2)%float = true ->
  bmp_plot_line (S fuel) resource x1 y1 x2 y2 r g b p = Some ([], true).
Proof.
  intros Hx Hy. rewrite bmp_plot_line_unfold. cbv zeta. cbn [line_loop].
  rewrite ltb_spec. change (Prim2SF 0) with (S754_zero false).
  rewrite SFltb_zero_or_nan by (apply line_length_degenerate; assumption).
  reflexivity.
Qed.

Lemma SFeqb_zero a :
  SFeqb a (S754_zero false) = true -> exists s, a = S754_zero s.
Proof.
  unfold SFeqb. destruct a as [s|[]| |[] m e]; simpl; try discriminate; eauto.
Qed.

Lemma SFadd_zeros_eqb s1 s2 a :
  SFeqb a a = true ->
  SFeqb (SFadd prec emax (S754_zero s1) a) (SFadd prec emax (S754_zero s2) a)
    = true.
Proof.
  destruct a as [s|s| |s m e]; simpl; intros H; try exact H.
  destruct s1, s2, s; reflexivity.
Qed.

(** Two table points scaled by a zero extent land on the same coordinate. *)
Lemma collapsed_equal (a b w x : float) :
  (a / 512 * w =? 0)%float = true -> (b / 512 * w =? 0)%float = true ->
  (x =? x)%float = true ->
  (a / 512 * w + x =? b / 512 * w + x)%float = true.
Proof.
  rewrite !FloatAxioms.eqb_spec. change (Prim2SF 0) with (S754_zero false).
  intros [s1 Ha]%SFeqb_zero [s2 Hb]%SFeqb_zero Hx.
  rewrite !add_spec, Ha, Hb. apply SFadd_zeros_eqb, Hx.
Qed.

Lemma plot_outline_degenerate fuel resource points x y w h r g b p :
  Forall (fun pt => (fst pt / 512 * w =? 0)%float = true /\
                    (snd pt / 512 * h =? 0)%float = true) points ->
  (x =? x)%float = true -> (y =? y)%float = true ->
  plot_outline (S fuel) resource points x y w h r g b p = Some [].
Proof.
  intros Hpts Hx Hy.
  induction points as [|last [|curr rest] IH]; [reflexivity..|].
  rewrite plot_outline_cons.
  inversion Hpts as [|? ? [Hlx Hly] Hrest]; subst.
  pose proof Hrest as Hrest'.
  inversion Hrest' as [|? ? [Hcx Hcy] _]; subst.
  unfold map_point. cbn [fst snd].
  rewrite line_degenerate_run by (apply collapsed_equal; assumption).
  rewrite (IH Hrest). reflexivity.
Qed.

Lemma float_zero w : (w =? 0)%float = true -> w = 0%float \/ w = (-0)%float.
Proof.
  rewrite FloatAxioms.eqb_spec. change (Prim2SF 0) with (S754_zero false).
  intros [[] Hs]%SFeqb_zero; [right|left]; apply Prim2SF_inj; rewrite Hs;
    reflexivity.
Qed.

(** X15: a shape of no extent draws nothing.  With a width and a height of
    zero (of either sign) and an origin that is a number, each of the six
    outliners maps all its table points to one position, every line it asks
    for has a zero or NaN length, and so no pixel is set, not even the one at
    the origin; the outliner returns [true]. *)
Theorem outliners_no_extent fuel resource x y w h r g b p :
  (w =? 0)%float = true -> (h =? 0)%float = true ->
  (x =? x)%float = true -> (y =? y)%float = true ->
  Forall (fun outliner =>
            outliner (S fuel) resource x y w h r g b p = Some ([], true))
    [bmp_plot_circle; bmp_plot_arrow_up; bmp_plot_arrow_down;
     bmp_plot_arrow_left; bmp_plot_arrow_right; bmp_plot_triangle].
Proof.
  intros Hw Hh Hx Hy.
  assert (forall points,
            Forall (fun pt => (fst pt / 512 * w =? 0)%float = true /\
                              (snd pt / 512 * h =? 0)%float = true) points ->
            plot_shape points (S fuel) resource x y w h r g b p = Some ([], true))
    as Hshape.
  { intros points Hpts. unfold plot_shape.
    rewrite plot_outline_degenerate by assumption. reflexivity. }
  unfold bmp_plot_circle, bmp_plot_arrow_up, bmp_plot_arrow_down,
    bmp_plot_arrow_left, bmp_plot_arrow_right, bmp_plot_triangle.
  apply float_zero in Hw as [-> | ->], Hh as [-> | ->];
    repeat (apply List.Forall_cons;
            [apply Hshape;
             repeat (apply List.Forall_cons; [split; vm_compute; reflexivity|]);
             apply List.Forall_nil|]);
    apply List.Forall_nil.
Qed.

Lemma outliners_no_extent_witness :
  Forall (fun outliner =>
            outliner 1%nat (LineTarget 10 10) 3 4 0 (-0) 255 255 255 1
            = Some ([], true))%float
    [bmp_plot_circle; bmp_plot_arrow_up; bmp_plot_arrow_down;
     bmp_plot_arrow_left; bmp_plot_arrow_right; bmp_plot_triangle].
Proof. apply outliners_no_extent; reflexivity. Defined.
